(** * Meal identification: data preprocessing and meal-segment labelling

    A shallow embedding of the notebook
    [0_meal_identification/meal_identification/notebooks/1.02-vr-ggs-data-preprocessing.ipynb]:
    the stateful scan [create_meal_labels] and the pandas pipeline
    [preprocess_data], followed by the properties proved about them. *)

From Stdlib Require Import QArith Qcanon.
From stdpp Require Import base option list numbers strings sorting.

Local Open Scope Z_scope.

(** ** Data model *)

(** A cell of a frame read from CSV: missing, a number, or text. *)
Inductive cell : Type :=
  | NaN
  | Num (x : Qc)
  | Str (s : string).

(** One row of a patient's frame.  [msg_type] is text or missing, the two
    flags are numbers or missing; [date] and the pass-through columns hold
    whatever the CSV had. *)
Record row : Type := Row {
  date : cell;
  msg_type : option string;
  affects_fob : option Qc;
  affects_iob : option Qc;
  others : list cell
}.

(** A frame: the names of its pass-through columns and its rows in order. *)
Record DataFrame : Type := Frame {
  other_columns : list string;
  rows : list row
}.

(** ** create_meal_labels *)

Module Labeler.

(** The three locals the loop mutates. [labels] is the numpy array, written
    by index; [active_meals] is the Python list, newest element last. The
    array holds float64, which represents every counter value below 2^53
    exactly, so its entries are kept as integers here. *)
Record loop_state : Type := LoopState {
  labels : list Z;
  meal_counter : Z;
  active_meals : list Z
}.

(** [df['msg_type'] == v]: element-wise comparison; a missing cell compares
    unequal to every string. *)
Definition series_eq (col : list (option string)) (v : string) : list bool :=
  (λ c, bool_decide (c = Some v)) <$> col.

Definition meal_start (df : list row) : list bool :=
  series_eq (msg_type <$> df) "ANNOUNCE_MEAL".

Definition meal_end (df : list row) : list bool :=
  series_eq (msg_type <$> df) "MEAL_END".

(** [a[i] = v] on an array: IndexError ([None]) out of range. *)
Definition setitem (a : list Z) (i : nat) (v : Z) : option (list Z) :=
  if bool_decide (i < length a)%nat then Some (<[i:=v]> a) else None.

(** [l.pop()]: IndexError ([None]) on the empty list. *)
Definition pop (l : list Z) : option (list Z) :=
  match l with
  | [] => None
  | _ => Some (removelast l)
  end.

(** The body of [for i in range(len(df))]. [None] stands for a raised
    IndexError ([iloc] or an index out of range, [pop] on an empty list). *)
Definition loop_body (meal_start meal_end : list bool) (i : nat)
    (st : loop_state) : option loop_state :=
  s ← meal_start !! i;
  let st1 :=
    if s : bool
    then LoopState (labels st) (meal_counter st + 1)
                   (active_meals st ++ [meal_counter st])
    else st in
  st2 ← (if bool_decide (0 < length (active_meals st1))%nat
         then top ← last (active_meals st1);
              a ← setitem (labels st1) i top;
              Some (LoopState a (meal_counter st1) (active_meals st1))
         else Some st1);
  e ← meal_end !! i;
  if (e : bool) && bool_decide (0 < length (active_meals st2))%nat
  then stk ← pop (active_meals st2);
       Some (LoopState (labels st2) (meal_counter st2) stk)
  else Some st2.

(** A [for] loop whose body may raise. *)
Fixpoint for_in {S : Type} (body : nat → S → option S) (range : list nat)
    (st : S) : option S :=
  match range with
  | [] => Some st
  | i :: range' => st' ← body i st; for_in body range' st'
  end.

(** The locals on entry to the loop, for a frame of [n] rows. *)
Definition init (n : nat) : loop_state := LoopState (replicate n 0) 1 [].

(** The loop over two flag series, stopped after its first [k] iterations. *)
Definition meal_loop (meal_start meal_end : list bool) (n k : nat)
    : option loop_state :=
  for_in (loop_body meal_start meal_end) (seq 0 k) (init n).

(** The locals of [create_meal_labels df] after its first [k] iterations. *)
Definition state_after (df : list row) (k : nat) : option loop_state :=
  meal_loop (meal_start df) (meal_end df) (length df) k.

Definition create_meal_labels (df : list row) : option (list Z) :=
  labels <$> state_after df (length df).

(** *** A list-recursive reading of the loop, used in the proofs *)

(** Stack and counter after the [if meal_start.iloc[i]] statement. *)
Definition opened (cs : Z * list Z) (s : bool) : Z * list Z :=
  if s then (cs.1 + 1, cs.2 ++ [cs.1]) else cs.

(** The value row [i] ends up with in [labels]. *)
Definition emit (cs : Z * list Z) (f : bool * bool) : Z :=
  default 0 (last (opened cs f.1).2).

(** Stack and counter at the end of one iteration. *)
Definition advance (cs : Z * list Z) (f : bool * bool) : Z * list Z :=
  let cs1 := opened cs f.1 in
  (cs1.1, if f.2 then removelast cs1.2 else cs1.2).

Fixpoint trace (cs : Z * list Z) (fl : list (bool * bool)) : list Z :=
  match fl with
  | [] => []
  | f :: fl' => emit cs f :: trace (advance cs f) fl'
  end.

Definition track (cs : Z * list Z) (fl : list (bool * bool)) : Z * list Z :=
  foldl advance cs fl.

(** The flags of a frame, row by row. *)
Definition flags (df : list row) : list (bool * bool) :=
  zip (meal_start df) (meal_end df).

(** Number of meal-start rows of a frame. *)
Definition starts (df : list row) : nat :=
  length (filter (λ r, msg_type r = Some "ANNOUNCE_MEAL") df).

(** The two flags of one row. *)
Definition row_flags (r : row) : bool * bool :=
  (bool_decide (msg_type r = Some "ANNOUNCE_MEAL"),
   bool_decide (msg_type r = Some "MEAL_END")).

(** Number of raised start flags. *)
Definition nstarts (fl : list (bool * bool)) : nat :=
  length (filter (λ f, f.1 = true) fl).

(** The stack grows strictly from bottom to top, holds only identifiers
    already handed out, and the counter is one more than the number of
    identifiers handed out. *)
Definition inv (issued : nat) (cs : Z * list Z) : Prop :=
  cs.1 = 1 + Z.of_nat issued ∧
  StronglySorted Z.lt cs.2 ∧
  Forall (λ x, 1 ≤ x < cs.1) cs.2.

(** *** Example frames *)

Definition event (m : string) : row := Row NaN (Some m) None None [].

(** No event, a meal, its end, and a second meal. *)
Definition two_meals : list row :=
  [Row NaN None None None []; event "ANNOUNCE_MEAL"; event "MEAL_END";
   event "ANNOUNCE_MEAL"].

(** A meal, its end, a second end with nothing open, and another meal. *)
Definition stray_end : list row :=
  [event "ANNOUNCE_MEAL"; event "MEAL_END"; event "MEAL_END";
   event "ANNOUNCE_MEAL"].

(** Rows without any meal start, and rows without any meal end. *)
Definition no_start_frame : list row :=
  [event "MEAL_END"; Row NaN None None None []; event "DOSE_INSULIN"].

Definition no_end_frame : list row :=
  [event "ANNOUNCE_MEAL"; Row NaN None None None []; event "ANNOUNCE_MEAL"].

End Labeler.

(** ** preprocess_data *)

Module Normalizer.

(** The one exception the pipeline can end in: scikit-learn's input check
    rejects a frame with no rows ("Found array with 0 sample(s) ... while
    a minimum of 1 is required"). *)
Inductive exn : Type :=
  | ValueError.

(** What a row holds besides its date once missing values are filled in. *)
Record entry : Type := Entry {
  e_msg_type : string;
  e_affects_fob : Qc;
  e_affects_iob : Qc;
  e_others : list cell
}.

(** The frame the function returns: its column names, and for each row the
    timestamp it is indexed by and its values, column by column. *)
Record Output : Type := Out {
  columns : list string;
  out_rows : list (Z * list cell)
}.

(** [df.fillna(0)] on a cell and on a numeric cell. *)
Definition fillna (c : cell) : cell :=
  match c with
  | NaN => Num 0%Qc
  | _ => c
  end.

Definition fillna_num (x : option Qc) : Qc := default 0%Qc x.

(** [df.fillna(0)] followed by [df['msg_type'].replace(0, 'NULL')] on a
    [msg_type] cell: a missing value becomes 0 and then 'NULL'; a string is
    left as it is. *)
Definition fill_msg_type (m : option string) : string := default "NULL" m.

Definition fill_row (r : row) : cell * entry :=
  (fillna (date r),
   Entry (fill_msg_type (msg_type r)) (fillna_num (affects_fob r))
         (fillna_num (affects_iob r)) (fillna <$> others r)).

(** [df.dropna(subset=['date'])]: rows whose date is NaT are left out. *)
Definition dropna (l : list (option Z * entry)) : list (Z * entry) :=
  omap (λ p, t ← p.1; Some (t, p.2)) l.

(** [lambda x: 1 if x != 0 else 0]. *)
Definition binarize (x : Qc) : Qc := if decide (x = 0%Qc) then 0%Qc else 1%Qc.

Definition binarize_flags (e : entry) : entry :=
  Entry (e_msg_type e) (binarize (e_affects_fob e)) (binarize (e_affects_iob e))
        (e_others e).

Definition RELEVANT_MSG_TYPES : list string :=
  ["ANNOUNCE_MEAL"; "INTERVENTION_SNACK"; "ANNOUNCE_EXERCISE"; "DOSE_INSULIN";
   "DOSE_BASAL_INSULIN"].

(** Python's [sub in s] on strings. *)
Fixpoint contains (sub s : string) : bool :=
  String.prefix sub s ||
  match s with
  | EmptyString => false
  | String _ s' => contains sub s'
  end.

(** The categories [OneHotEncoder(categories='auto')] finds in a column:
    its distinct values in ascending order. *)
Fixpoint insert_category (c : string) (cats : list string) : list string :=
  match cats with
  | [] => [c]
  | d :: cats' =>
      if String.eqb c d then cats
      else if String.leb c d then c :: cats
      else d :: insert_category c cats'
  end.

Definition categories (col : list string) : list string :=
  foldr insert_category [] col.

(** [encoder.get_feature_names_out(['msg_type'])]. *)
Definition feature_name (c : string) : string := "msg_type_" +:+ c.

(** [col for col in df.columns if 'msg_type' in col and not any(msg_type in
    col for msg_type in RELEVANT_MSG_TYPES)]. *)
Definition to_drop (col : string) : bool :=
  contains "msg_type" col &&
  negb (existsb (λ m, contains m col) RELEVANT_MSG_TYPES).

(** Columns of the frame after [pd.concat([df, encoded_df], axis=1)]:
    the two flags, the pass-through columns, one indicator per category.
    The code keeps the columns of the input in the order they came in; a
    frame is taken here with its two flag columns in front of the
    pass-through columns. *)
Definition concat_columns (other : list string) (cats : list string) : list string :=
  ["affects_fob"; "affects_iob"] ++ other ++ (feature_name <$> cats).

(** The values of one row in those columns; an indicator is 1.0 on the rows
    of its category and 0.0 elsewhere. *)
Definition concat_values (cats : list string) (e : entry) : list cell :=
  [Num (e_affects_fob e); Num (e_affects_iob e)] ++ e_others e ++
  ((λ c, Num (if decide (e_msg_type e = c) then 1%Qc else 0%Qc)) <$> cats).

(** [df.drop(columns=COLUMNS_TO_DROP)] on the names and on one row. *)
Definition kept_columns (cols : list string) : list string :=
  filter (λ col, to_drop col = false) cols.

Definition kept_values (cols : list string) (vals : list cell) : list cell :=
  (filter (λ p, to_drop p.1 = false) (zip cols vals)).*2.

Section pipeline.

(** [pd.to_datetime(_, format='%Y-%m-%d %H:%M:%S%z', errors='coerce',
    utc=True)] on one cell: [None] is NaT, [Some t] the instant in
    nanoseconds since the epoch. *)
Variable to_datetime : cell → option Z.

(** [df.sort_values('date')] on the rows that are left. *)
Variable sort_values : list (Z * entry) → list (Z * entry).

(** The rows that survive [dropna], in input order, before sorting. *)
Definition retained (df : DataFrame) : list (Z * entry) :=
  dropna ((λ r, (to_datetime (fill_row r).1, (fill_row r).2)) <$> rows df).

(** The rows after sorting and the coercion of the two flags. *)
Definition cleaned (df : DataFrame) : list (Z * entry) :=
  (λ p, (p.1, binarize_flags p.2)) <$> sort_values (retained df).

Definition preprocess_data (df : DataFrame) : exn + Output :=
  let body := cleaned df in
  match body with
  | [] => inl ValueError
  | _ =>
      let cats := categories (e_msg_type <$> body.*2) in
      let cols := concat_columns (other_columns df) cats in
      inr (Out (kept_columns cols)
               ((λ p, (p.1, kept_values cols (concat_values cats p.2))) <$> body))
  end.

End pipeline.

(** *** Sorting by date *)

(** What pandas promises of [sort_values('date')] as the code calls it, with
    the default [kind='quicksort']: the same rows, in ascending order of
    date. Of the kinds pandas offers only 'mergesort' and 'stable' keep rows
    of equal date in their order, and the code asks for neither. *)
Definition sort_contract (sort : list (Z * entry) → list (Z * entry)) : Prop :=
  ∀ l, sort l ≡ₚ l ∧ Sorted (λ a b, a.1 ≤ b.1) (sort l).

(** Insertion sort on the date, for a test [before] that decides whether a
    row goes in front of another. *)
Fixpoint insert_by (before : Z → Z → bool) (x : Z * entry)
    (l : list (Z * entry)) : list (Z * entry) :=
  match l with
  | [] => [x]
  | y :: l' => if before x.1 y.1 then x :: l else y :: insert_by before x l'
  end.

Definition sort_by (before : Z → Z → bool) (l : list (Z * entry)) : list (Z * entry) :=
  foldr (insert_by before) [] l.

(** The stable sort: a row goes in front of the later rows of equal date. *)
Definition stable_sort : list (Z * entry) → list (Z * entry) := sort_by Z.leb.

(** *** The sort pandas runs by default *)

(** [df.sort_values('date')] hands the date column to numpy's
    [argsort(kind='quicksort')] and takes the rows in the order of the index
    array it returns. The definitions below follow that routine on the rows
    themselves: a range of more than [SMALL_QUICKSORT] rows is partitioned
    around the median of its first, middle and last row, a shorter range is
    sorted by insertion. numpy also switches to heapsort once the partitions
    nest deeper than twice the binary logarithm of the length, which takes
    more than 32 rows; that guard is left out here. *)
Definition SMALL_QUICKSORT : nat := 16.

(** [INTP_SWAP(a[i], a[j])]. *)
Definition swap (a : list (Z * entry)) (i j : nat) : list (Z * entry) :=
  match a !! i, a !! j with
  | Some x, Some y => <[i:=y]> (<[j:=x]> a)
  | _, _ => a
  end.

(** [v[a[i]] < v[a[j]]]. *)
Definition less_at (a : list (Z * entry)) (i j : nat) : bool :=
  match a !! i, a !! j with
  | Some x, Some y => x.1 <? y.1
  | _, _ => false
  end.

(** [do { ++pi; } while (v[*pi] < vp)], entered at the incremented [pi]. *)
Fixpoint scan_up (fuel : nat) (a : list (Z * entry)) (vp : Z) (pi : nat) : nat :=
  match fuel with
  | O => pi
  | S fuel' =>
      match a !! pi with
      | Some x => if x.1 <? vp then scan_up fuel' a vp (S pi) else pi
      | None => pi
      end
  end.

(** [do { --pj; } while (vp < v[*pj])], entered at the decremented [pj]. *)
Fixpoint scan_down (fuel : nat) (a : list (Z * entry)) (vp : Z) (pj : nat) : nat :=
  match fuel with
  | O => pj
  | S fuel' =>
      match a !! pj with
      | Some x => if vp <? x.1 then scan_down fuel' a vp (pred pj) else pj
      | None => pj
      end
  end.

(** The [for (;;)] loop of the partition: both scans, then a swap unless
    the two positions have met. *)
Fixpoint partition_loop (fuel : nat) (a : list (Z * entry)) (vp : Z)
    (pi pj : nat) : list (Z * entry) * nat :=
  match fuel with
  | O => (a, pi)
  | S fuel' =>
      let pi' := scan_up (length a) a vp (S pi) in
      let pj' := scan_down (length a) a vp (pred pj) in
      if (pj' <=? pi')%nat then (a, pi')
      else partition_loop fuel' (swap a pi' pj') vp pi' pj'
  end.

(** One partition of the range [pl..pr]: median of three, the pivot parked
    at [pr - 1], the scans, the pivot put in its place [pi]. *)
Definition partition (a : list (Z * entry)) (pl pr : nat) : list (Z * entry) * nat :=
  let pm := (pl + (pr - pl) / 2)%nat in
  let a1 := if less_at a pm pl then swap a pm pl else a in
  let a2 := if less_at a1 pr pm then swap a1 pr pm else a1 in
  let a3 := if less_at a2 pm pl then swap a2 pm pl else a2 in
  match a3 !! pm with
  | None => (a3, pm)
  | Some p =>
      let a4 := swap a3 pm (pr - 1) in
      let '(a5, pi) := partition_loop (length a) a4 p.1 pl (pr - 1) in
      (swap a5 pi (pr - 1), pi)
  end.

(** The inner [while] of the insertion sort: rows greater than [vi] move one
    place up, then [vi] is written. *)
Fixpoint sift (a : list (Z * entry)) (pl : nat) (vi : Z * entry) (pj : nat)
    : list (Z * entry) :=
  match pj with
  | O => <[O:=vi]> a
  | S pk =>
      match a !! pk with
      | Some x =>
          if (pl <? pj)%nat && (vi.1 <? x.1)
          then sift (<[pj:=x]> a) pl vi pk
          else <[pj:=vi]> a
      | None => <[pj:=vi]> a
      end
  end.

(** Insertion sort of the range [pl..pr]. *)
Definition insertion_range (a : list (Z * entry)) (pl pr : nat) : list (Z * entry) :=
  foldl (λ a pi, match a !! pi with
                 | Some vi => sift a pl vi pi
                 | None => a
                 end)
        a (seq (S pl) (pr - pl)).

(** The outer loop, with the stack of pending ranges turned into recursion:
    the smaller side is sorted first, the larger one after it. *)
Fixpoint quicksort_range (fuel : nat) (a : list (Z * entry)) (pl pr : nat)
    : list (Z * entry) :=
  match fuel with
  | O => a
  | S fuel' =>
      if (SMALL_QUICKSORT <? S (pr - pl))%nat
      then
        let '(a', pi) := partition a pl pr in
        if (pi - pl <? pr - pi)%nat
        then quicksort_range fuel' (quicksort_range fuel' a' pl (pi - 1)) (pi + 1) pr
        else quicksort_range fuel' (quicksort_range fuel' a' (pi + 1) pr) pl (pi - 1)
      else insertion_range a pl pr
  end.

Definition numpy_quicksort (l : list (Z * entry)) : list (Z * entry) :=
  quicksort_range (length l) l 0 (length l - 1).

(** *** A list reading of the default sort, used in the proofs *)

(** What the inner loop of the insertion sort does to the sorted rows [M]
    in front of [vi]: the rows after [vi] step back from the right end. *)
Fixpoint ins_rev (vi : Z * entry) (T : list (Z * entry)) : list (Z * entry) :=
  match T with
  | [] => [vi]
  | x :: T' => if vi.1 <? x.1 then x :: ins_rev vi T' else vi :: T
  end.

Definition ins (vi : Z * entry) (M : list (Z * entry)) : list (Z * entry) :=
  reverse (ins_rev vi (reverse M)).

(** The insertion sort, row after row from the left. *)
Definition isort (M : list (Z * entry)) : list (Z * entry) :=
  foldl (λ acc x, ins x acc) [] M.

(** [a'] holds the rows of [a], and only rows of the range [pl..pr] have
    moved. *)
Definition touches (pl pr : nat) (a a' : list (Z * entry)) : Prop :=
  a' ≡ₚ a ∧ ∀ k, (k < pl ∨ pr < k)%nat → a' !! k = a !! k.

(** The rows of the range [lo..hi]. *)
Definition seg (a : list (Z * entry)) (lo hi : nat) : list (Z * entry) :=
  take (S hi - lo) (drop lo a).

(** The rows of [lo..hi] are in ascending order of date. *)
Definition sorted_range (a : list (Z * entry)) (lo hi : nat) : Prop :=
  ∀ i j x y, (lo ≤ i)%nat → (i ≤ j)%nat → (j ≤ hi)%nat →
             a !! i = Some x → a !! j = Some y → x.1 ≤ y.1.

(** *** Example frames *)

(** The instants of the timestamps used in the examples below; every other
    cell used there fails to parse. *)
Definition example_to_datetime (c : cell) : option Z :=
  match c with
  | Str "2024-01-01 08:00:00+0000" => Some 1704096000000000000
  | Str "2024-01-01 09:00:00+0000" => Some 1704099600000000000
  | _ => None
  end.

(** Two rows with the same timestamp. *)
Definition tied_frame : DataFrame :=
  Frame [] [Row (Str "2024-01-01 08:00:00+0000") (Some "ANNOUNCE_MEAL") None None [];
            Row (Str "2024-01-01 08:00:00+0000") (Some "DOSE_INSULIN") None None []].



(** A frame whose only timestamp is not in the expected format. *)
Definition unparseable_frame : DataFrame :=
  Frame [] [Row (Str "01/01/2024 08:00") (Some "ANNOUNCE_MEAL") None None []].

(** A frame with a category that extends the name of a relevant one. *)
Definition cancelled_frame : DataFrame :=
  Frame [] [Row (Str "2024-01-01 08:00:00+0000") (Some "ANNOUNCE_MEAL_CANCELLED") None None [];
            Row (Str "2024-01-01 09:00:00+0000") (Some "MEAL_END") None None []].

(** A frame with one bad timestamp among good ones. *)
Definition mixed_frame : DataFrame :=
  Frame [] [Row (Str "2024-01-01 09:00:00+0000") (Some "DOSE_INSULIN") None None [];
            Row (Str "01/01/2024 08:00") (Some "ANNOUNCE_MEAL") None None [];
            Row (Str "2024-01-01 08:00:00+0000") None None None []].

(** A frame with a pass-through column and a raised flag. *)
Definition glucose_frame : DataFrame :=
  Frame ["bgl"]
        [Row (Str "2024-01-01 08:00:00+0000") (Some "ANNOUNCE_MEAL") (Some 1%Qc) None
             [Num 1%Qc]].

(** The rows of [mixed_frame] in another order. *)
Definition mixed_frame_reordered : DataFrame :=
  Frame [] [Row (Str "01/01/2024 08:00") (Some "ANNOUNCE_MEAL") None None [];
            Row (Str "2024-01-01 09:00:00+0000") (Some "DOSE_INSULIN") None None [];
            Row (Str "2024-01-01 08:00:00+0000") None None None []].

End Normalizer.

(** * Properties of create_meal_labels *)

Module LabelerFacts.
Import Labeler.

Lemma for_in_app {S : Type} (body : nat → S → option S) (a b : list nat) (st : S) :
  for_in body (a ++ b) st = for_in body a st ≫= for_in body b.
Proof.
  revert st. induction a as [|i a IH]; intros st; simpl; [done|].
  destruct (body i st) as [st'|]; simpl; [apply IH|done].
Qed.

Lemma trace_app cs a b :
  trace cs (a ++ b) = trace cs a ++ trace (track cs a) b.
Proof.
  revert cs. induction a as [|f a IH]; intros cs; simpl; [done|].
  by rewrite IH.
Qed.

Lemma length_trace cs fl : length (trace cs fl) = length fl.
Proof. revert cs. induction fl as [|f fl IH]; intros cs; simpl; [done|]. by rewrite IH. Qed.

Lemma track_snoc cs fl f : track cs (fl ++ [f]) = advance (track cs fl) f.
Proof. unfold track. by rewrite foldl_app. Qed.

Ltac body_step :=
  cbn [mbind option_bind labels meal_counter active_meals fst snd andb].

(** One iteration never raises when the index is in range, and does what
    [emit] and [advance] say. *)
Lemma loop_body_spec ms me i st s e :
  ms !! i = Some s → me !! i = Some e → (i < length (labels st))%nat →
  loop_body ms me i st =
    Some (LoopState
            (match last (opened (meal_counter st, active_meals st) s).2 with
             | Some top => <[i:=top]> (labels st)
             | None => labels st
             end)
            (advance (meal_counter st, active_meals st) (s, e)).1
            (advance (meal_counter st, active_meals st) (s, e)).2).
Proof.
  intros Hs He Hi. unfold loop_body, advance, opened, setitem, pop.
  rewrite Hs, He. destruct st as [lbl c stk]. cbn [labels] in Hi.
  destruct s; body_step.
  - rewrite length_app, !last_snoc.
    rewrite bool_decide_true by (cbn; lia). body_step.
    rewrite bool_decide_true by done. body_step.
    rewrite length_app, bool_decide_true by (cbn; lia).
    destruct e; body_step; [|done].
    destruct (stk ++ [c]) eqn:E; [by destruct stk|]. done.
  - destruct stk as [|x stk].
    + cbn. by destruct e.
    + rewrite bool_decide_true by (cbn; lia).
      destruct (last (x :: stk)) as [top|] eqn:Hl.
      2:{ by apply last_None in Hl. }
      body_step. rewrite bool_decide_true by done. body_step.
      rewrite bool_decide_true by (cbn; lia).
      by destruct e.
Qed.

(** The loop refines the list-recursive reading: after [k] iterations the
    first [k] labels are those of [trace], the rest are still zero, and the
    counter and stack are those of [track]. In particular it never raises. *)
Lemma meal_loop_spec ms me n k :
  length ms = n → length me = n → (k ≤ n)%nat →
  meal_loop ms me n k =
    Some (LoopState (trace (1, []) (take k (zip ms me)) ++ replicate (n - k) 0)
                    (track (1, []) (take k (zip ms me))).1
                    (track (1, []) (take k (zip ms me))).2).
Proof.
  intros Hms Hme. unfold meal_loop. induction k as [|k IH]; intros Hk.
  - cbn. by rewrite Nat.sub_0_r.
  - rewrite seq_S, for_in_app, IH by lia. cbn [mbind option_bind for_in plus].
    destruct (lookup_lt_is_Some_2 ms k) as [s Hs]; [lia|].
    destruct (lookup_lt_is_Some_2 me k) as [e He]; [lia|].
    assert (Hz : zip ms me !! k = Some (s, e)).
    { rewrite lookup_zip_with, Hs. cbn. by rewrite He. }
    assert (Hlen : length (trace (1, []) (take k (zip ms me))) = k).
    { rewrite length_trace, length_take, length_zip. lia. }
    rewrite (loop_body_spec _ _ _ _ s e); cbn [labels meal_counter active_meals]; try done.
    2:{ rewrite length_app, Hlen, length_replicate. lia. }
    rewrite (take_S_r _ _ _ Hz), trace_app, track_snoc.
    rewrite <- surjective_pairing. cbn [trace].
    replace (n - k)%nat with (S (n - S k)) by lia. cbn [replicate].
    f_equal. f_equal. rewrite <- app_assoc. cbn [app].
    unfold emit. cbn [fst].
    destruct (last _) as [top|]; cbn [default].
    + rewrite <- Hlen at 1. rewrite insert_app_r_alt by lia.
      by rewrite Nat.sub_diag.
    + done.
Qed.

(** *** The flags of a frame *)

Lemma flags_fmap df : flags df = row_flags <$> df.
Proof.
  unfold flags, meal_start, meal_end, series_eq.
  induction df as [|r df IH]; [done|]. cbn. by rewrite IH.
Qed.

Lemma length_meal_start df : length (meal_start df) = length df.
Proof. unfold meal_start, series_eq. by rewrite !length_fmap. Qed.

Lemma length_meal_end df : length (meal_end df) = length df.
Proof. unfold meal_end, series_eq. by rewrite !length_fmap. Qed.

Lemma meal_start_lookup df i :
  meal_start df !! i = (λ r, bool_decide (msg_type r = Some "ANNOUNCE_MEAL")) <$> df !! i.
Proof. unfold meal_start, series_eq. rewrite !list_lookup_fmap. by destruct (df !! i). Qed.

Lemma meal_end_lookup df i :
  meal_end df !! i = (λ r, bool_decide (msg_type r = Some "MEAL_END")) <$> df !! i.
Proof. unfold meal_end, series_eq. rewrite !list_lookup_fmap. by destruct (df !! i). Qed.

Lemma nstarts_flags df : nstarts (flags df) = starts df.
Proof.
  rewrite flags_fmap. unfold nstarts, starts.
  induction df as [|r df IH]; [done|].
  rewrite fmap_cons, !filter_cons. cbn [row_flags fst].
  destruct (decide (msg_type r = Some "ANNOUNCE_MEAL")) as [E|E].
  - rewrite bool_decide_true by done. rewrite decide_True by done. cbn. by rewrite IH.
  - rewrite bool_decide_false by done. rewrite decide_False by done. done.
Qed.

Lemma nstarts_snoc fl f :
  nstarts (fl ++ [f]) = (nstarts fl + (if f.1 then 1 else 0))%nat.
Proof.
  unfold nstarts. rewrite filter_app, length_app. f_equal.
  rewrite filter_cons, filter_nil. destruct f as [[] ?]; cbn; by case_decide.
Qed.

Lemma nstarts_take_le fl i j : (i ≤ j)%nat → (nstarts (take i fl) ≤ nstarts (take j fl))%nat.
Proof.
  intros Hij. replace (take i fl) with (take i (take j fl)).
  2:{ rewrite take_take. f_equal. lia. }
  rewrite <- (take_drop i (take j fl)) at 2.
  unfold nstarts. rewrite filter_app, length_app. lia.
Qed.

(** *** Invariant of the counter and the stack *)

Lemma inv_init : inv 0 (1, []).
Proof. repeat split; constructor. Qed.

Lemma StronglySorted_snoc_lt (l : list Z) (c : Z) :
  StronglySorted Z.lt l → Forall (λ x, x < c) l → StronglySorted Z.lt (l ++ [c]).
Proof.
  intros Hs Hf. apply StronglySorted_app; repeat split; try done.
  - intros x y Hx Hy. apply list_elem_of_singleton in Hy as ->.
    by eapply Forall_forall in Hf.
  - repeat constructor.
Qed.

Lemma StronglySorted_removelast (l : list Z) :
  StronglySorted Z.lt l → StronglySorted Z.lt (removelast l).
Proof.
  destruct (decide (l = [])) as [->|Hne]; [done|].
  destruct (exists_last Hne) as (l' & a & ->). rewrite removelast_last.
  apply StronglySorted_app_1_l.
Qed.

Lemma Forall_removelast {A} (P : A → Prop) (l : list A) :
  Forall P l → Forall P (removelast l).
Proof.
  destruct (decide (l = [])) as [->|Hne]; [done|].
  destruct (exists_last Hne) as (l' & a & ->). rewrite removelast_last.
  intros H. by apply Forall_app in H as [H _].
Qed.

Lemma inv_opened (k : nat) cs (s : bool) :
  inv k cs → inv (k + (if s then 1 else 0))%nat (opened cs s).
Proof.
  intros (Hc & Hs & Hf). destruct cs as [c stk]. cbn in *.
  destruct s; unfold inv, opened; cbn [fst snd].
  - repeat split.
    + lia.
    + apply StronglySorted_snoc_lt; [done|].
      eapply Forall_impl; [exact Hf|]. cbn. lia.
    + apply Forall_app. split.
      * eapply Forall_impl; [exact Hf|]. cbn. lia.
      * repeat constructor; lia.
  - rewrite Nat.add_0_r. done.
Qed.

Lemma inv_advance (k : nat) cs (f : bool * bool) :
  inv k cs → inv (k + (if f.1 then 1 else 0))%nat (advance cs f).
Proof.
  intros H. apply (inv_opened _ _ f.1) in H. destruct H as (Hc & Hs & Hf).
  unfold advance. cbn [fst snd]. repeat split; [done| |].
  - destruct f.2; [by apply StronglySorted_removelast|done].
  - destruct f.2; [by apply Forall_removelast|done].
Qed.

Lemma inv_track fl : inv (nstarts fl) (track (1, []) fl).
Proof.
  induction fl as [|f fl IH] using rev_ind; [apply inv_init|].
  rewrite track_snoc, nstarts_snoc. by apply inv_advance.
Qed.

(** *** The loop, row by row *)

Lemma trace_lookup cs fl i f :
  fl !! i = Some f → trace cs fl !! i = Some (emit (track cs (take i fl)) f).
Proof.
  intros Hf. rewrite <- (take_drop_middle fl i f Hf) at 1.
  rewrite trace_app. cbn [trace].
  rewrite lookup_app_r; rewrite length_trace, length_take_le;
    try (apply lookup_lt_Some in Hf; lia).
  by rewrite Nat.sub_diag.
Qed.

Lemma flags_take df k : take k (flags df) = flags (take k df).
Proof. by rewrite !flags_fmap, fmap_take. Qed.

Lemma flags_lookup df i r : df !! i = Some r → flags df !! i = Some (row_flags r).
Proof. intros H. by rewrite flags_fmap, list_lookup_fmap, H. Qed.

Lemma state_after_spec df k :
  (k ≤ length df)%nat →
  state_after df k =
    Some (LoopState (trace (1, []) (flags (take k df)) ++ replicate (length df - k) 0)
                    (track (1, []) (flags (take k df))).1
                    (track (1, []) (flags (take k df))).2).
Proof.
  intros Hk. unfold state_after.
  rewrite meal_loop_spec; auto using length_meal_start, length_meal_end.
  fold (flags df). by rewrite flags_take.
Qed.

Lemma create_meal_labels_spec df :
  create_meal_labels df = Some (trace (1, []) (flags df)).
Proof.
  unfold create_meal_labels. rewrite state_after_spec by done.
  cbn. by rewrite firstn_all, Nat.sub_diag, app_nil_r.
Qed.

(** Every label is zero or an identifier handed out so far. *)
Lemma emit_range k cs f :
  inv k cs →
  emit cs f = 0 ∨ 1 ≤ emit cs f ≤ Z.of_nat (k + (if f.1 then 1 else 0)).
Proof.
  intros H. apply (inv_opened _ _ f.1) in H as (Hc & _ & Hf).
  unfold emit. destruct (last _) as [top|] eqn:Hl; cbn [default]; [right|by left].
  apply last_Some in Hl as [l' Hl]. rewrite Hl in Hf.
  apply Forall_app in Hf as [_ Hf]. apply Forall_inv in Hf.
  rewrite Hc in Hf. unfold id. lia.
Qed.

Lemma starts_take_S df i r :
  df !! i = Some r →
  starts (take (S i) df) =
    (nstarts (flags (take i df)) + (if (row_flags r).1 then 1 else 0))%nat.
Proof.
  intros Hr. rewrite (take_S_r _ _ _ Hr), <- nstarts_flags.
  rewrite (flags_fmap (_ ++ _)), fmap_app. cbn [fmap list_fmap].
  by rewrite nstarts_snoc, <- flags_fmap.
Qed.

Lemma label_range df i v :
  trace (1, []) (flags df) !! i = Some v →
  v = 0 ∨ 1 ≤ v ≤ Z.of_nat (starts (take (S i) df)).
Proof.
  intros Hv.
  assert (Hi : (i < length df)%nat).
  { apply lookup_lt_Some in Hv. by rewrite length_trace, flags_fmap, length_fmap in Hv. }
  destruct (lookup_lt_is_Some_2 df i Hi) as [r Hr].
  rewrite (trace_lookup _ _ _ _ (flags_lookup _ _ _ Hr)) in Hv.
  injection Hv as <-.
  rewrite (starts_take_S _ _ _ Hr), <- flags_take.
  apply emit_range, inv_track.
Qed.

Lemma starts_take_le df i j :
  (i ≤ j)%nat → (starts (take i df) ≤ starts (take j df))%nat.
Proof.
  intros Hij. rewrite <- !nstarts_flags, <- !flags_take. by apply nstarts_take_le.
Qed.

Lemma counter_after df k :
  (track (1, []) (flags (take k df))).1 = Z.of_nat (S (starts (take k df))).
Proof.
  destruct (inv_track (flags (take k df))) as (Hc & _).
  rewrite Hc, nstarts_flags. lia.
Qed.

(** *** Claims about create_meal_labels *)

(** C5: [create_meal_labels] returns on every frame, never raising; the
    array it returns has exactly one label per input row, the label at index
    [i] being the one computed from row [i] and the locals on entry to
    iteration [i]; the empty frame yields the empty array. *)
Theorem create_meal_labels_total (df : list row) :
  (∃ lbls, create_meal_labels df = Some lbls ∧
           length lbls = length df ∧
           ∀ i r, df !! i = Some r →
             ∃ st, state_after df i = Some st ∧
                   lbls !! i =
                     Some (emit (meal_counter st, active_meals st) (row_flags r))) ∧
  create_meal_labels [] = Some [].
Proof.
  split; [|done].
  exists (trace (1, []) (flags df)). split; [apply create_meal_labels_spec|].
  split.
  - rewrite length_trace, flags_fmap. apply length_fmap.
  - intros i r Hr. eexists. split.
    + apply state_after_spec. apply lookup_lt_Some in Hr. lia.
    + cbn [meal_counter active_meals]. rewrite <- surjective_pairing.
      rewrite <- flags_take. by apply trace_lookup, flags_lookup.
Qed.

(** C9: after any number [k] of iterations the stack is strictly increasing
    from bottom to top and each of its elements is below the counter; the
    same holds inside iteration [k], right after the append. Consequently
    every label is 0, or positive and at most the number of meal-start rows
    among rows [0..i]. *)
Theorem stack_increasing_below_counter (df : list row) (k : nat) :
  (k ≤ length df)%nat →
  (∃ st, state_after df k = Some st ∧
         StronglySorted Z.lt (active_meals st) ∧
         Forall (λ x, x < meal_counter st) (active_meals st) ∧
         ∀ r, df !! k = Some r →
           let cs := opened (meal_counter st, active_meals st) (row_flags r).1 in
           StronglySorted Z.lt cs.2 ∧ Forall (λ x, x < cs.1) cs.2) ∧
  ∃ lbls, create_meal_labels df = Some lbls ∧
          ∀ i v, lbls !! i = Some v →
                 v = 0 ∨ 1 ≤ v ≤ Z.of_nat (starts (take (S i) df)).
Proof.
  intros Hk. split.
  - eexists. split; [by apply state_after_spec|].
    cbn [meal_counter active_meals]. rewrite <- surjective_pairing.
    pose proof (inv_track (flags (take k df))) as Hinv.
    split; [apply Hinv|]. split.
    + destruct Hinv as (_ & _ & Hf). eapply Forall_impl; [exact Hf|].
      cbn. lia.
    + intros r _. cbv zeta.
      destruct (inv_opened _ _ (row_flags r).1 Hinv) as (_ & Hs & Hf).
      split; [done|]. eapply Forall_impl; [exact Hf|]. cbn. lia.
  - eexists. split; [apply create_meal_labels_spec|].
    intros i v Hv. by apply label_range.
Qed.

(** C10: on every frame the two flag series are never raised together: row
    by row, [meal_start] and [meal_end] compare the one [msg_type] cell with
    two different strings, so no index carries both flags. *)
Theorem start_end_exclusive (df : list row) :
  Forall2 (λ s e, s && e = false) (meal_start df) (meal_end df) ∧
  ∀ i, ¬ (meal_start df !! i = Some true ∧ meal_end df !! i = Some true).
Proof.
  split.
  - unfold meal_start, meal_end, series_eq.
    induction df as [|r df IH]; cbn; constructor; [|exact IH].
    destruct (msg_type r) as [m|]; [|done].
    destruct (bool_decide (Some m = Some "ANNOUNCE_MEAL")) eqn:Hs; [|done].
    apply bool_decide_eq_true in Hs as [= ->]. done.
  - intros i. rewrite meal_start_lookup, meal_end_lookup.
    destruct (df !! i) as [r|]; cbn; [|by intros [? _]].
    intros [Hs He]. injection Hs as Hs. injection He as He.
    apply bool_decide_eq_true in Hs. apply bool_decide_eq_true in He.
    congruence.
Qed.

(** C1: if row [i] is a meal-start row and [k] is one more than the number
    of meal-start rows before it, then on entry to iteration [i] the counter
    is [k], the iteration appends [k] to the stack and leaves it there, row
    [i] is labelled [k], and no earlier row is labelled [k]. *)
Theorem kth_start_gets_k (df : list row) (i : nat) (r : row) :
  df !! i = Some r → msg_type r = Some "ANNOUNCE_MEAL" →
  let k := Z.of_nat (S (starts (take i df))) in
  ∃ st st' lbls,
    state_after df i = Some st ∧ meal_counter st = k ∧
    state_after df (S i) = Some st' ∧
    active_meals st' = active_meals st ++ [k] ∧ meal_counter st' = k + 1 ∧
    create_meal_labels df = Some lbls ∧ lbls !! i = Some k ∧
    ∀ j, (j < i)%nat → lbls !! j ≠ Some k.
Proof.
  intros Hr Hm k.
  assert (Hi : (i < length df)%nat) by by apply lookup_lt_Some in Hr.
  assert (Hf : row_flags r = (true, false)).
  { unfold row_flags. rewrite Hm. done. }
  pose proof (counter_after df i) as Hc. fold k in Hc.
  do 3 eexists.
  split; [apply state_after_spec; lia|]. split; [exact Hc|].
  split; [apply state_after_spec; lia|].
  cbn [meal_counter active_meals].
  rewrite (take_S_r _ _ _ Hr), (flags_fmap (_ ++ _)), fmap_app, <- flags_fmap.
  cbn [fmap list_fmap]. rewrite track_snoc, Hf.
  unfold advance, opened. cbn [fst snd]. rewrite Hc.
  split; [done|]. split; [done|].
  split; [apply create_meal_labels_spec|]. split.
  - rewrite (trace_lookup _ _ _ _ (flags_lookup _ _ _ Hr)), flags_take, Hf.
    unfold emit, opened. cbn [fst snd]. by rewrite last_snoc, Hc.
  - intros j Hj Hv. apply label_range in Hv.
    pose proof (starts_take_le df (S j) i ltac:(lia)). lia.
Qed.

(** C2: whatever lies below it, the element on top of the stack after the
    append of iteration [i] is the label of row [i]; and the four rows
    [start, start, end, end] are labelled [1, 2, 2, 1]. *)
Theorem top_of_stack_emitted (df : list row) (i : nat) (r : row) :
  df !! i = Some r →
  (∃ st lbls,
     state_after df i = Some st ∧ create_meal_labels df = Some lbls ∧
     ∀ below top,
       active_meals st ++
         (if bool_decide (msg_type r = Some "ANNOUNCE_MEAL")
          then [meal_counter st] else []) = below ++ [top] →
       lbls !! i = Some top) ∧
  create_meal_labels
    [Row NaN (Some "ANNOUNCE_MEAL") None None [];
     Row NaN (Some "ANNOUNCE_MEAL") None None [];
     Row NaN (Some "MEAL_END") None None [];
     Row NaN (Some "MEAL_END") None None []] = Some [1; 2; 2; 1].
Proof.
  intros Hr. split; [|done].
  assert (Hi : (i < length df)%nat) by by apply lookup_lt_Some in Hr.
  do 2 eexists. split; [apply state_after_spec; lia|].
  split; [apply create_meal_labels_spec|].
  cbn [meal_counter active_meals]. intros below top Hstk.
  rewrite (trace_lookup _ _ _ _ (flags_lookup _ _ _ Hr)), flags_take.
  f_equal. unfold emit, opened, row_flags. cbn [fst snd].
  destruct (bool_decide _); cbn [fst snd].
  - by rewrite Hstk, last_snoc.
  - rewrite app_nil_r in Hstk. by rewrite Hstk, last_snoc.
Qed.

(** *** A meal end with nothing open *)

Lemma flags_app df1 df2 : flags (df1 ++ df2) = flags df1 ++ flags df2.
Proof. by rewrite !flags_fmap, fmap_app. Qed.

Lemma flags_cons r df : flags (r :: df) = row_flags r :: flags df.
Proof. by rewrite !flags_fmap. Qed.

Lemma trace_nonneg df : Forall (λ v, 0 ≤ v) (trace (1, []) (flags df)).
Proof.
  apply Forall_lookup. intros i v Hv. apply label_range in Hv. lia.
Qed.

(** C4: let row [r] be a meal end reached with an empty stack. Then the
    call still returns, no label is negative, the iteration leaves counter
    and stack as they were, row [r] is labelled 0, the labels are those of
    the frame where [r] carries no event, and the later rows are labelled as
    in the frame without row [r]. *)
Theorem end_on_empty_stack_ignored (pre post : list row) (r : row) (st : loop_state) :
  msg_type r = Some "MEAL_END" →
  state_after (pre ++ r :: post) (length pre) = Some st →
  active_meals st = [] →
  ∃ lbls st',
    create_meal_labels (pre ++ r :: post) = Some lbls ∧
    Forall (λ v, 0 ≤ v) lbls ∧
    state_after (pre ++ r :: post) (S (length pre)) = Some st' ∧
    active_meals st' = [] ∧ meal_counter st' = meal_counter st ∧
    lbls !! length pre = Some 0 ∧
    (∀ r0, msg_type r0 ≠ Some "ANNOUNCE_MEAL" → msg_type r0 ≠ Some "MEAL_END" →
           create_meal_labels (pre ++ r0 :: post) = Some lbls) ∧
    create_meal_labels (pre ++ post) =
      Some (take (length pre) lbls ++ drop (S (length pre)) lbls).
Proof.
  intros Hm Hst Hempty.
  assert (Hf : row_flags r = (false, true)).
  { unfold row_flags. by rewrite Hm. }
  rewrite state_after_spec in Hst by (rewrite length_app; lia).
  rewrite take_app_length in Hst. injection Hst as <-.
  cbn [active_meals meal_counter] in *.
  set (cs := track (1, []) (flags pre)) in *.
  assert (Hadv : advance cs (false, true) = cs).
  { unfold advance, opened. cbn [fst snd]. rewrite Hempty. cbn.
    rewrite <- Hempty. by destruct cs. }
  assert (Hadv0 : advance cs (false, false) = cs) by by destruct cs.
  assert (Hemit : ∀ e, emit cs (false, e) = 0).
  { intros e. unfold emit, opened. cbn [fst snd]. by rewrite Hempty. }
  assert (Htr : trace (1, []) (flags (pre ++ r :: post)) =
                trace (1, []) (flags pre) ++ 0 :: trace cs (flags post)).
  { rewrite flags_app, flags_cons, trace_app, Hf. cbn [trace]. fold cs.
    by rewrite Hadv, Hemit. }
  do 2 eexists.
  split; [apply create_meal_labels_spec|].
  split; [apply trace_nonneg|].
  split; [apply state_after_spec; rewrite length_app; cbn; lia|].
  cbn [active_meals meal_counter].
  replace (take (S (length pre)) (pre ++ r :: post)) with (pre ++ [r]).
  2:{ rewrite (take_S_r _ _ r), take_app_length; [done|].
      by rewrite list_lookup_middle. }
  rewrite flags_app, (flags_cons r []). change (flags []) with (@nil (bool * bool)).
  rewrite track_snoc. fold cs. rewrite Hf, Hadv.
  split; [done|]. split; [done|].
  rewrite Htr. split.
  { rewrite lookup_app_r; rewrite length_trace, flags_fmap, length_fmap; [|lia].
    by rewrite Nat.sub_diag. }
  split.
  - intros r0 Hs0 He0. rewrite create_meal_labels_spec. f_equal.
    rewrite flags_app, flags_cons, trace_app. cbn [trace]. fold cs.
    unfold row_flags. rewrite !bool_decide_false by done.
    by rewrite Hadv0, Hemit.
  - rewrite create_meal_labels_spec. f_equal.
    rewrite flags_app, trace_app. fold cs.
    assert (Hlen : length (trace (1, []) (flags pre)) = length pre).
    { by rewrite length_trace, flags_fmap, length_fmap. }
    rewrite <- Hlen at 1. rewrite take_app_length.
    rewrite drop_app_ge by lia. rewrite Hlen.
    replace (S (length pre) - length pre)%nat with 1%nat by lia. done.
Qed.

(** *** A row that raises both flags *)

Lemma elem_of_removelast (x : Z) (l : list Z) : x ∈ removelast l → x ∈ l.
Proof.
  destruct (decide (l = [])) as [->|Hne]; [done|].
  destruct (exists_last Hne) as (l' & a & ->). rewrite removelast_last.
  intros H. apply elem_of_app. by left.
Qed.

(** An identifier that was handed out and is no longer on the stack never
    comes back: no later row is labelled with it. *)
Lemma trace_absent (c : Z) cs fl :
  1 ≤ c < cs.1 → c ∉ cs.2 → ∀ j v, trace cs fl !! j = Some v → v ≠ c.
Proof.
  revert cs. induction fl as [|f fl IH]; intros cs Hc Hnin j v Hv; [done|].
  assert (Hopen : (c ∉ (opened cs f.1).2) ∧ c < (opened cs f.1).1).
  { unfold opened. destruct f.1; cbn [fst snd]; [|tauto].
    split; [|lia]. rewrite elem_of_app, list_elem_of_singleton. intros [?|?]; [done|lia]. }
  destruct Hopen as [Hnin1 Hlt1].
  destruct j as [|j]; cbn in Hv.
  - injection Hv as <-. unfold emit.
    destruct (last _) as [top|] eqn:Hl; cbn [default]; [|lia].
    unfold id. intros Heq. subst top. apply Hnin1. apply last_Some in Hl as [l' ->].
    apply elem_of_app. right. by apply list_elem_of_singleton.
  - eapply (IH (advance cs f)); [| |exact Hv]; unfold advance; cbn [fst snd].
    + lia.
    + destruct f.2; [|done]. intros H. by apply elem_of_removelast in H.
Qed.

(** C3: in the loop over two flag series, let row [i] raise both flags and
    let [c] be the counter on entry to iteration [i]. Then row [i] is
    labelled [c], the iteration leaves the stack exactly as it found it (so
    [c] is not on it), and no later row is labelled [c]. A single row with
    both flags raised is labelled [1] and leaves the stack empty. *)
Theorem start_and_end_on_one_row (ms me : list bool) (n i : nat) :
  length ms = n → length me = n →
  ms !! i = Some true → me !! i = Some true →
  (∃ st st' fin,
     meal_loop ms me n i = Some st ∧
     meal_loop ms me n (S i) = Some st' ∧
     meal_loop ms me n n = Some fin ∧
     labels fin !! i = Some (meal_counter st) ∧
     meal_counter st' = meal_counter st + 1 ∧
     active_meals st' = active_meals st ∧
     (meal_counter st ∉ active_meals st') ∧
     ∀ j, (i < j)%nat → labels fin !! j ≠ Some (meal_counter st)) ∧
  meal_loop [true] [true] 1 1 = Some (LoopState [1] 2 []).
Proof.
  intros Hms Hme Hs He. split; [|done].
  assert (Hi : (i < n)%nat) by (apply lookup_lt_Some in Hs; lia).
  assert (Hz : zip ms me !! i = Some (true, true)).
  { rewrite lookup_zip_with, Hs. cbn. by rewrite He. }
  do 3 eexists.
  split; [apply meal_loop_spec; lia|].
  split; [apply meal_loop_spec; lia|].
  split; [apply meal_loop_spec; lia|].
  cbn [labels meal_counter active_meals].
  rewrite (take_S_r _ _ _ Hz), track_snoc.
  rewrite Nat.sub_diag, app_nil_r, firstn_all2 by (rewrite length_zip; lia).
  set (cs := track (1, []) (take i (zip ms me))).
  pose proof (inv_track (take i (zip ms me))) as (Hc & Hsorted & Hbelow). fold cs in Hc, Hsorted, Hbelow.
  assert (Hadv : advance cs (true, true) = (cs.1 + 1, cs.2)).
  { unfold advance, opened. cbn [fst snd]. by rewrite removelast_last. }
  rewrite Hadv. cbn [fst snd].
  assert (Hnin : cs.1 ∉ cs.2).
  { intros Hin. eapply Forall_forall in Hbelow; [|exact Hin]. cbn in Hbelow. lia. }
  split.
  { rewrite (trace_lookup _ _ _ _ Hz). fold cs. unfold emit, opened.
    cbn [fst snd]. by rewrite last_snoc. }
  split; [done|]. split; [done|]. split; [done|].
  intros j Hj Hv.
  rewrite <- (take_drop_middle _ _ _ Hz) in Hv.
  rewrite cons_middle, app_assoc in Hv.
  rewrite trace_app, track_snoc in Hv. fold cs in Hv. rewrite Hadv in Hv.
  rewrite lookup_app_r in Hv.
  2:{ rewrite length_trace, length_app, length_take, length_zip. cbn. lia. }
  by eapply (trace_absent cs.1) in Hv; cbn [fst snd]; [|lia|].
Qed.

(** *** The theorems at concrete frames *)

Lemma kth_start_gets_k_witness :
  two_meals !! 3%nat = Some (event "ANNOUNCE_MEAL") ∧
  msg_type (event "ANNOUNCE_MEAL") = Some "ANNOUNCE_MEAL" ∧
  ∃ st st' lbls,
    state_after two_meals 3 = Some st ∧ meal_counter st = 2 ∧
    state_after two_meals 4 = Some st' ∧
    active_meals st' = active_meals st ++ [2] ∧ meal_counter st' = 2 + 1 ∧
    create_meal_labels two_meals = Some lbls ∧ lbls !! 3%nat = Some 2 ∧
    ∀ j, (j < 3)%nat → lbls !! j ≠ Some 2.
Proof.
  split; [reflexivity|]. split; [reflexivity|].
  exact (kth_start_gets_k two_meals 3 (event "ANNOUNCE_MEAL") eq_refl eq_refl).
Defined.

Lemma top_of_stack_emitted_witness :
  two_meals !! 2%nat = Some (event "MEAL_END") ∧
  ∃ st lbls,
    state_after two_meals 2 = Some st ∧ create_meal_labels two_meals = Some lbls ∧
    ∀ below top, active_meals st ++ [] = below ++ [top] → lbls !! 2%nat = Some top.
Proof.
  split; [reflexivity|].
  exact (proj1 (top_of_stack_emitted two_meals 2 (event "MEAL_END") eq_refl)).
Defined.

Lemma start_and_end_on_one_row_witness :
  ∃ st st' fin,
    meal_loop [false; true; false] [false; true; true] 3 1 = Some st ∧
    meal_loop [false; true; false] [false; true; true] 3 2 = Some st' ∧
    meal_loop [false; true; false] [false; true; true] 3 3 = Some fin ∧
    labels fin !! 1%nat = Some (meal_counter st) ∧
    meal_counter st' = meal_counter st + 1 ∧
    active_meals st' = active_meals st ∧
    (meal_counter st ∉ active_meals st') ∧
    ∀ j, (1 < j)%nat → labels fin !! j ≠ Some (meal_counter st).
Proof.
  exact (proj1 (start_and_end_on_one_row [false; true; false] [false; true; true]
                  3 1 eq_refl eq_refl eq_refl eq_refl)).
Defined.

Lemma end_on_empty_stack_ignored_witness :
  state_after stray_end 2 = Some (LoopState [1; 1; 0; 0] 2 []) ∧
  ∃ lbls st',
    create_meal_labels stray_end = Some lbls ∧
    Forall (λ v, 0 ≤ v) lbls ∧
    state_after stray_end 3 = Some st' ∧
    active_meals st' = [] ∧ meal_counter st' = 2 ∧
    lbls !! 2%nat = Some 0 ∧
    (∀ r0, msg_type r0 ≠ Some "ANNOUNCE_MEAL" → msg_type r0 ≠ Some "MEAL_END" →
           create_meal_labels
             ([event "ANNOUNCE_MEAL"; event "MEAL_END"] ++ r0 :: [event "ANNOUNCE_MEAL"])
           = Some lbls) ∧
    create_meal_labels
      ([event "ANNOUNCE_MEAL"; event "MEAL_END"] ++ [event "ANNOUNCE_MEAL"]) =
      Some (take 2 lbls ++ drop 3 lbls).
Proof.
  split; [reflexivity|].
  exact (end_on_empty_stack_ignored
           [event "ANNOUNCE_MEAL"; event "MEAL_END"] [event "ANNOUNCE_MEAL"]
           (event "MEAL_END") (LoopState [1; 1; 0; 0] 2 [])
           eq_refl eq_refl eq_refl).
Defined.

Lemma stack_increasing_below_counter_witness :
  (2 ≤ length two_meals)%nat ∧
  (∃ st, state_after two_meals 2 = Some st ∧
         StronglySorted Z.lt (active_meals st) ∧
         Forall (λ x, x < meal_counter st) (active_meals st) ∧
         ∀ r, two_meals !! 2%nat = Some r →
           let cs := opened (meal_counter st, active_meals st) (row_flags r).1 in
           StronglySorted Z.lt cs.2 ∧ Forall (λ x, x < cs.1) cs.2) ∧
  ∃ lbls, create_meal_labels two_meals = Some lbls ∧
          ∀ i v, lbls !! i = Some v →
                 v = 0 ∨ 1 ≤ v ≤ Z.of_nat (starts (take (S i) two_meals)).
Proof.
  assert (H : (2 ≤ length two_meals)%nat) by (cbn; lia).
  split; [exact H|]. exact (stack_increasing_below_counter two_meals 2 H).
Defined.

End LabelerFacts.

(** * The default sort is a sort *)

Module QuicksortFacts.
Import Normalizer.

Local Open Scope nat_scope.

(** *** The insertion sort *)

Lemma ins_nil vi : ins vi [] = [vi].
Proof. done. Qed.

Lemma ins_snoc vi M x :
  ins vi (M ++ [x]) = if (vi.1 <? x.1)%Z then ins vi M ++ [x] else M ++ [x; vi].
Proof.
  unfold ins. rewrite reverse_snoc. cbn [ins_rev].
  destruct (vi.1 <? x.1)%Z.
  - by rewrite reverse_cons.
  - rewrite !reverse_cons, reverse_involutive, <- app_assoc. done.
Qed.

Lemma ins_perm vi M : ins vi M ≡ₚ vi :: M.
Proof.
  induction M as [|x M IH] using rev_ind; [done|].
  rewrite ins_snoc. destruct (vi.1 <? x.1)%Z.
  - rewrite IH. cbn. by rewrite Permutation_middle.
  - rewrite (Permutation_app_comm M [x; vi]). cbn.
    rewrite (Permutation_app_comm M [x]). cbn. apply Permutation_swap.
Qed.

Lemma sift_spec vi (L M R : list (Z * entry)) (h : Z * entry) :
  sift (L ++ M ++ h :: R) (length L) vi (length L + length M) = L ++ ins vi M ++ R.
Proof.
  revert h R. induction M as [|x M IH] using rev_ind; intros h R.
  - cbn [app length]. rewrite Nat.add_0_r.
    destruct (length L) as [|pk] eqn:E.
    + destruct L; [|done]. done.
    + cbn [sift].
      assert (Hl : (pk < length L)%nat) by lia.
      destruct (lookup_lt_is_Some_2 L pk Hl) as [y Hy].
      rewrite lookup_app_l, Hy by lia.
      rewrite (proj2 (Nat.ltb_ge _ _)) by lia. cbn [andb].
      rewrite <- E. rewrite insert_app_r_alt by lia. by rewrite Nat.sub_diag.
  - rewrite length_app. cbn [length].
    replace (length L + (length M + 1))%nat with (S (length L + length M)) by lia.
    cbn [sift].
    rewrite <- !app_assoc. cbn [app].
    rewrite lookup_app_r by lia.
    rewrite lookup_app_r by lia.
    replace (length L + length M - length L - length M)%nat with 0%nat by lia.
    cbn [lookup list_lookup].
    rewrite (proj2 (Nat.ltb_lt _ _)) by lia. cbn [andb].
    rewrite ins_snoc. destruct (vi.1 <? x.1)%Z.
    + replace (<[S (length L + length M):=x]> (L ++ M ++ x :: h :: R))
        with (L ++ M ++ x :: x :: R).
      2:{ rewrite insert_app_r_alt by lia. f_equal.
          rewrite insert_app_r_alt by lia. f_equal.
          replace (S (length L + length M) - length L - length M)%nat with 1%nat by lia.
          done. }
      rewrite (IH x (x :: R)). by rewrite <- !app_assoc.
    + rewrite insert_app_r_alt by lia. f_equal.
      rewrite insert_app_r_alt by lia. rewrite <- app_assoc. f_equal.
      replace (S (length L + length M) - length L - length M)%nat with 1%nat by lia.
      done.
Qed.

Lemma isort_snoc M x : isort (M ++ [x]) = ins x (isort M).
Proof. unfold isort. by rewrite foldl_app. Qed.

Lemma isort_perm M : isort M ≡ₚ M.
Proof.
  induction M as [|x M IH] using rev_ind; [done|].
  rewrite isort_snoc, ins_perm, IH. by rewrite Permutation_app_comm.
Qed.

Lemma length_isort M : length (isort M) = length M.
Proof. by rewrite isort_perm. Qed.

Lemma ins_sorted vi M :
  StronglySorted (λ a b : Z * entry, (a.1 ≤ b.1)%Z) M → StronglySorted (λ a b : Z * entry, (a.1 ≤ b.1)%Z) (ins vi M).
Proof.
  induction M as [|x M IH] using rev_ind; intros Hs; [by repeat constructor|].
  apply StronglySorted_app in Hs as (Hlt & HM & _).
  rewrite ins_snoc. destruct (vi.1 <? x.1)%Z eqn:E.
  - apply Z.ltb_lt in E. apply StronglySorted_app. split; [|split].
    + intros y z Hy Hz. apply list_elem_of_singleton in Hz as ->.
      rewrite ins_perm in Hy. apply elem_of_cons in Hy as [->|Hy]; [cbn; lia|].
      apply Hlt; [done|by apply list_elem_of_singleton].
    + by apply IH.
    + repeat constructor.
  - apply Z.ltb_ge in E. apply StronglySorted_app. split; [|split].
    + intros y z Hy Hz.
      assert (y.1 ≤ x.1)%Z by (apply Hlt; [done|by apply list_elem_of_singleton]).
      apply elem_of_cons in Hz as [->|Hz]; [done|].
      apply list_elem_of_singleton in Hz as ->. cbn. lia.
    + done.
    + repeat constructor. done.
Qed.

Lemma isort_sorted M : StronglySorted (λ a b : Z * entry, (a.1 ≤ b.1)%Z) (isort M).
Proof.
  induction M as [|x M IH] using rev_ind; [constructor|].
  rewrite isort_snoc. by apply ins_sorted.
Qed.

Lemma insertion_steps (L M R : list (Z * entry)) (k : nat) :
  (k < length M)%nat →
  foldl (λ a pi, match a !! pi with
                 | Some vi => sift a (length L) vi pi
                 | None => a
                 end)
        (L ++ M ++ R) (seq (S (length L)) k)
  = L ++ isort (take (S k) M) ++ drop (S k) M ++ R.
Proof.
  induction k as [|k IH]; intros Hk.
  - cbn [seq foldl]. destruct M as [|x M]; [cbn in Hk; lia|]. done.
  - rewrite seq_S, foldl_app, IH by lia. cbn [foldl].
    destruct (lookup_lt_is_Some_2 M (S k) Hk) as [vi Hvi].
    assert (Hlen : length (isort (take (S k) M)) = S k).
    { rewrite length_isort, length_take. lia. }
    replace (S (length L) + k)%nat with (length L + length (isort (take (S k) M)))%nat by lia.
    rewrite (drop_S _ _ _ Hvi).
    rewrite lookup_app_r by lia. rewrite lookup_app_r by lia.
    replace (length L + length (isort (take (S k) M)) - length L
             - length (isort (take (S k) M)))%nat with 0%nat by lia.
    cbn [app lookup list_lookup].
    rewrite sift_spec. by rewrite (take_S_r _ _ _ Hvi), isort_snoc.
Qed.

Lemma insertion_range_spec (L M R : list (Z * entry)) :
  insertion_range (L ++ M ++ R) (length L) (length L + length M - 1)
  = L ++ isort M ++ R.
Proof.
  unfold insertion_range.
  destruct M as [|x M].
  { cbn [length]. replace (length L + 0 - 1 - length L)%nat with 0%nat by lia. done. }
  cbn [length].
  replace (length L + S (length M) - 1 - length L)%nat with (length M) by lia.
  rewrite (insertion_steps L (x :: M) R (length M)) by (cbn; lia).
  change (S (length M)) with (length (x :: M)).
  by rewrite firstn_all, drop_all.
Qed.


Lemma touches_refl pl pr a : touches pl pr a a.
Proof. done. Qed.

Lemma touches_trans pl pr a b c :
  touches pl pr a b → touches pl pr b c → touches pl pr a c.
Proof.
  intros [Hp1 Hf1] [Hp2 Hf2]. split; [by rewrite Hp2|].
  intros k Hk. by rewrite Hf2, Hf1.
Qed.

Lemma touches_weaken pl pr pl' pr' a b :
  (pl' ≤ pl)%nat → (pr ≤ pr')%nat → touches pl pr a b → touches pl' pr' a b.
Proof. intros ?? [Hp Hf]. split; [done|]. intros k Hk. apply Hf. lia. Qed.

Lemma touches_length pl pr a b : touches pl pr a b → length b = length a.
Proof. intros [Hp _]. by rewrite Hp. Qed.

Lemma swap_length a i j : length (swap a i j) = length a.
Proof.
  unfold swap. destruct (a !! i), (a !! j); try done. by rewrite !length_insert.
Qed.

Lemma swap_perm a i j : swap a i j ≡ₚ a.
Proof.
  unfold swap. destruct (a !! i) as [x|] eqn:Hi, (a !! j) as [y|] eqn:Hj; try done.
  by apply Permutation_insert_swap.
Qed.

Lemma swap_lookup a i j k :
  (i < length a)%nat → (j < length a)%nat →
  swap a i j !! k =
    if decide (k = i) then a !! j else if decide (k = j) then a !! i else a !! k.
Proof.
  intros Hi Hj. unfold swap.
  destruct (lookup_lt_is_Some_2 a i Hi) as [x Hx].
  destruct (lookup_lt_is_Some_2 a j Hj) as [y Hy]. rewrite Hx, Hy.
  destruct (decide (k = i)) as [->|Hki].
  - rewrite list_lookup_insert_eq by (by rewrite length_insert). done.
  - rewrite list_lookup_insert_ne by done.
    destruct (decide (k = j)) as [->|Hkj].
    + by rewrite list_lookup_insert_eq.
    + by rewrite list_lookup_insert_ne.
Qed.

Lemma swap_touches pl pr a i j :
  (pl ≤ i ≤ pr)%nat → (pl ≤ j ≤ pr)%nat → touches pl pr a (swap a i j).
Proof.
  intros Hi Hj. split; [apply swap_perm|]. intros k Hk.
  destruct (decide (i < length a)%nat) as [Hil|Hil];
    destruct (decide (j < length a)%nat) as [Hjl|Hjl].
  - rewrite swap_lookup by done. repeat case_decide; try done; lia.
  - unfold swap. rewrite (lookup_ge_None_2 a j) by lia. by destruct (a !! i).
  - unfold swap. by rewrite (lookup_ge_None_2 a i) by lia.
  - unfold swap. by rewrite (lookup_ge_None_2 a i) by lia.
Qed.

(** *** The two scans *)

Lemma scan_up_spec (a : list (Z * entry)) (vp : Z) (stop : nat) (y : (Z * entry)) :
  a !! stop = Some y → (vp ≤ y.1)%Z →
  ∀ fuel start, (start ≤ stop)%nat → (stop - start < fuel)%nat →
  let r := scan_up fuel a vp start in
  (start ≤ r ≤ stop)%nat ∧
  (∃ x, a !! r = Some x ∧ (vp ≤ x.1)%Z) ∧
  ∀ k x, (start ≤ k < r)%nat → a !! k = Some x → (x.1 < vp)%Z.
Proof.
  intros Hy Hvy. induction fuel as [|fuel IH]; intros start Hs Hf; [lia|].
  cbn [scan_up].
  assert (Hlt : (start < length a)%nat).
  { apply lookup_lt_Some in Hy. lia. }
  destruct (lookup_lt_is_Some_2 a start Hlt) as [x Hx]. rewrite Hx.
  destruct (x.1 <? vp)%Z eqn:E.
  - apply Z.ltb_lt in E.
    assert (start ≠ stop) by (intros ->; rewrite Hy in Hx; injection Hx as ->; lia).
    destruct (IH (S start)) as (Hr & Hex & Hbelow); [lia..|].
    cbn zeta. split; [lia|]. split; [done|].
    intros k z Hk Hz. destruct (decide (k = start)) as [->|].
    + rewrite Hx in Hz. by injection Hz as <-.
    + apply (Hbelow k); [lia|done].
  - apply Z.ltb_ge in E. cbn zeta. split; [lia|]. split; [eauto|].
    intros k z Hk. lia.
Qed.

Lemma scan_down_spec (a : list (Z * entry)) (vp : Z) (stop : nat) (y : (Z * entry)) :
  a !! stop = Some y → (y.1 ≤ vp)%Z →
  ∀ fuel start, (stop ≤ start)%nat → (start < length a)%nat →
  (start - stop < fuel)%nat →
  let r := scan_down fuel a vp start in
  (stop ≤ r ≤ start)%nat ∧
  (∃ x, a !! r = Some x ∧ (x.1 ≤ vp)%Z) ∧
  ∀ k x, (r < k ≤ start)%nat → a !! k = Some x → (vp < x.1)%Z.
Proof.
  intros Hy Hvy. induction fuel as [|fuel IH]; intros start Hs Hl Hf; [lia|].
  cbn [scan_down].
  destruct (lookup_lt_is_Some_2 a start Hl) as [x Hx]. rewrite Hx.
  destruct (vp <? x.1)%Z eqn:E.
  - apply Z.ltb_lt in E.
    assert (start ≠ stop) by (intros ->; rewrite Hy in Hx; injection Hx as ->; lia).
    destruct (IH (pred start)) as (Hr & Hex & Habove); [lia..|].
    cbn zeta. split; [lia|]. split; [done|].
    intros k z Hk Hz. destruct (decide (k = start)) as [->|].
    + rewrite Hx in Hz. by injection Hz as <-.
    + apply (Habove k); [lia|done].
  - apply Z.ltb_ge in E. cbn zeta. split; [lia|]. split; [eauto|].
    intros k z Hk. lia.
Qed.

(** *** The partition *)

Lemma partition_loop_spec (pl pr : nat) (vp : Z) :
  ∀ fuel (a : list (Z * entry)) (pi pj : nat) a' pi',
  (pr < length a)%nat → (pl ≤ pi)%nat → (pi < pj)%nat → (pj ≤ pr - 1)%nat →
  (∀ k x, (pl ≤ k ≤ pi)%nat → a !! k = Some x → (x.1 ≤ vp)%Z) →
  (∀ k x, (pj ≤ k ≤ pr)%nat → a !! k = Some x → (vp ≤ x.1)%Z) →
  (pj - pi ≤ fuel)%nat →
  partition_loop fuel a vp pi pj = (a', pi') →
  touches (pl + 1) (pr - 2) a a' ∧ (pl < pi' ≤ pr - 1)%nat ∧
  (∀ k x, (pl ≤ k < pi')%nat → a' !! k = Some x → (x.1 ≤ vp)%Z) ∧
  (∀ k x, (pi' ≤ k ≤ pr)%nat → a' !! k = Some x → (vp ≤ x.1)%Z).
Proof.
  induction fuel as [|fuel IH]; intros a pi pj a' pi' Hlen Hpl Hlt Hpr Hlow Hhigh Hfuel;
    [lia|].
  cbn [partition_loop].
  destruct (lookup_lt_is_Some_2 a pj ltac:(lia)) as [y Hy].
  destruct (lookup_lt_is_Some_2 a pi ltac:(lia)) as [z Hz].
  pose proof (scan_up_spec a vp pj y Hy (Hhigh pj y ltac:(lia) Hy)
                (length a) (S pi) ltac:(lia) ltac:(lia)) as Hup.
  pose proof (scan_down_spec a vp pi z Hz (Hlow pi z ltac:(lia) Hz)
                (length a) (pred pj) ltac:(lia) ltac:(lia) ltac:(lia)) as Hdown.
  cbn zeta in Hup, Hdown.
  set (i := scan_up (length a) a vp (S pi)) in *.
  set (j := scan_down (length a) a vp (pred pj)) in *.
  destruct Hup as (Hi & (xi & Hxi & Hxi_ge) & Hbelow).
  destruct Hdown as (Hj & (xj & Hxj & Hxj_le) & Habove).
  assert (Hlow' : ∀ k x, (pl ≤ k < i)%nat → a !! k = Some x → (x.1 ≤ vp)%Z).
  { intros k x Hk Hx. destruct (decide (k ≤ pi)%nat).
    - apply (Hlow k); [lia|done].
    - assert (x.1 < vp)%Z by (apply (Hbelow k); [lia|done]). lia. }
  assert (Hhigh' : ∀ k x, (j < k ≤ pr)%nat → a !! k = Some x → (vp ≤ x.1)%Z).
  { intros k x Hk Hx. destruct (decide (pj ≤ k)%nat).
    - apply (Hhigh k); [lia|done].
    - assert (vp < x.1)%Z by (apply (Habove k); [lia|done]). lia. }
  destruct (j <=? i)%nat eqn:E.
  - apply Nat.leb_le in E. intros [= <- <-].
    split; [apply touches_refl|]. split; [lia|]. split; [done|].
    intros k x Hk Hx. destruct (decide (k = i)) as [->|].
    + rewrite Hxi in Hx. by injection Hx as <-.
    + apply (Hhigh' k); [lia|done].
  - apply Nat.leb_gt in E. intros Hrec.
    apply IH in Hrec; [| rewrite swap_length; lia | lia | lia | lia | | | lia].
    + destruct Hrec as (Ht & Hpi' & Hl & Hh).
      split; [|done].
      eapply touches_trans; [|exact Ht]. apply swap_touches; lia.
    + intros k x Hk. rewrite swap_lookup by lia.
      destruct (decide (k = i)) as [->|].
      * rewrite Hxj. intros [= <-]. done.
      * case_decide; [lia|]. apply Hlow'. lia.
    + intros k x Hk. rewrite swap_lookup by lia.
      case_decide; [lia|]. destruct (decide (k = j)) as [->|].
      * rewrite Hxi. intros [= <-]. done.
      * apply Hhigh'. lia.
Qed.

(** A swap made only when the row at [hi] is before the row at [lo]. *)
Lemma cond_swap_spec (a : list (Z * entry)) (hi lo : nat) (x y : (Z * entry)) :
  hi ≠ lo → a !! lo = Some x → a !! hi = Some y →
  let b := if less_at a hi lo then swap a hi lo else a in
  ∃ x' y', b !! lo = Some x' ∧ b !! hi = Some y' ∧ (x'.1 ≤ y'.1)%Z ∧
           ((x' = x ∧ y' = y) ∨ (x' = y ∧ y' = x)) ∧
           length b = length a ∧
           ∀ k, k ≠ lo → k ≠ hi → b !! k = a !! k.
Proof.
  intros Hne Hx Hy. unfold less_at. rewrite Hx, Hy.
  assert (Hlo : (lo < length a)%nat) by by apply lookup_lt_Some in Hx.
  assert (Hhi : (hi < length a)%nat) by by apply lookup_lt_Some in Hy.
  destruct (y.1 <? x.1)%Z eqn:E; cbn zeta.
  - apply Z.ltb_lt in E. exists y, x.
    rewrite !swap_lookup by done. rewrite swap_length.
    rewrite decide_False by done. rewrite !decide_True by done.
    split; [done|]. split; [done|]. split; [lia|]. split; [by right|].
    split; [done|]. intros k ??. rewrite swap_lookup by done.
    by rewrite !decide_False by done.
  - apply Z.ltb_ge in E. exists x, y. repeat split; try done. by left.
Qed.

Lemma partition_spec (a : list (Z * entry)) (pl pr : nat) a' pi :
  (pl + 2 ≤ pr)%nat → (pr < length a)%nat →
  partition a pl pr = (a', pi) →
  touches pl pr a a' ∧ (pl < pi < pr)%nat ∧
  ∃ p, a' !! pi = Some p ∧
       (∀ k x, (pl ≤ k < pi)%nat → a' !! k = Some x → (x.1 ≤ p.1)%Z) ∧
       (∀ k x, (pi < k ≤ pr)%nat → a' !! k = Some x → (p.1 ≤ x.1)%Z).
Proof.
  intros Hrange Hlen. unfold partition.
  set (pm := (pl + (pr - pl) / 2)%nat).
  assert (Hpm : (pl < pm < pr)%nat).
  { unfold pm. split.
    - assert (1 ≤ (pr - pl) / 2)%nat by (apply Nat.div_le_lower_bound; lia). lia.
    - assert ((pr - pl) / 2 < pr - pl)%nat by (apply Nat.div_lt; lia). lia. }
  destruct (lookup_lt_is_Some_2 a pl ltac:(lia)) as [x0 Hx0].
  destruct (lookup_lt_is_Some_2 a pm ltac:(lia)) as [y0 Hy0].
  destruct (lookup_lt_is_Some_2 a pr ltac:(lia)) as [z0 Hz0].
  (* first conditional swap: pl against pm *)
  destruct (cond_swap_spec a pm pl x0 y0 ltac:(lia) Hx0 Hy0)
    as (x1 & y1 & Hx1 & Hy1 & Hxy1 & Hc1 & Hl1 & Hf1).
  set (a1 := if less_at a pm pl then swap a pm pl else a) in *.
  assert (Hz1 : a1 !! pr = Some z0) by (rewrite Hf1 by lia; done).
  (* second: pm against pr *)
  destruct (cond_swap_spec a1 pr pm y1 z0 ltac:(lia) Hy1 Hz1)
    as (y2 & z2 & Hy2 & Hz2 & Hyz2 & Hc2 & Hl2 & Hf2).
  set (a2 := if less_at a1 pr pm then swap a1 pr pm else a1) in *.
  assert (Hx2 : a2 !! pl = Some x1) by (rewrite Hf2 by lia; done).
  (* third: pl against pm *)
  destruct (cond_swap_spec a2 pm pl x1 y2 ltac:(lia) Hx2 Hy2)
    as (x3 & y3 & Hx3 & Hy3 & Hxy3 & Hc3 & Hl3 & Hf3).
  set (a3 := if less_at a2 pm pl then swap a2 pm pl else a2) in *.
  assert (Hz3 : a3 !! pr = Some z2) by (rewrite Hf3 by lia; done).
  assert (Hyz3 : (y3.1 ≤ z2.1)%Z).
  { destruct Hc1 as [[-> ->]|[-> ->]], Hc2 as [[-> ->]|[-> ->]],
      Hc3 as [[-> ->]|[-> ->]]; lia. }
  assert (Ht3 : touches pl pr a a3).
  { assert (H1 : touches pl pr a a1).
    { subst a1. destruct (less_at a pm pl); [apply swap_touches; lia|done]. }
    assert (H2 : touches pl pr a1 a2).
    { subst a2. destruct (less_at a1 pr pm); [apply swap_touches; lia|done]. }
    assert (H3 : touches pl pr a2 a3).
    { subst a3. destruct (less_at a2 pm pl); [apply swap_touches; lia|done]. }
    eauto using touches_trans. }
  assert (Hlen3 : length a3 = length a) by congruence.
  rewrite Hy3.
  set (a4 := swap a3 pm (pr - 1)).
  assert (Hlen4 : length a4 = length a) by (unfold a4; by rewrite swap_length).
  assert (H4pivot : a4 !! (pr - 1)%nat = Some y3).
  { unfold a4. rewrite swap_lookup by lia.
    destruct (decide (pr - 1 = pm)%nat) as [->|]; [|by rewrite decide_True by done].
    rewrite Hy3. done. }
  assert (H4pl : a4 !! pl = Some x3).
  { unfold a4. rewrite swap_lookup by lia. by rewrite !decide_False by lia. }
  assert (H4pr : a4 !! pr = Some z2).
  { unfold a4. rewrite swap_lookup by lia. by rewrite !decide_False by lia. }
  destruct (partition_loop (length a) a4 y3.1 pl (pr - 1)) as [a5 pi5] eqn:Hloop.
  intros [= <- <-].
  apply (partition_loop_spec pl pr) in Hloop; [|lia..| | |lia].
  2:{ intros k x Hk Hx. assert (k = pl) as -> by lia.
      rewrite H4pl in Hx. injection Hx as <-. done. }
  2:{ intros k x Hk Hx. destruct (decide (k = pr)) as [->|].
      - rewrite H4pr in Hx. injection Hx as <-. done.
      - assert (k = pr - 1)%nat as -> by lia.
        rewrite H4pivot in Hx. injection Hx as <-. done. }
  destruct Hloop as (Ht5 & Hpi & Hlow & Hhigh).
  assert (Hlen5 : length a5 = length a).
  { apply touches_length in Ht5. lia. }
  assert (H5pivot : a5 !! (pr - 1)%nat = Some y3).
  { destruct Ht5 as [_ Hf]. rewrite Hf by lia. done. }
  destruct (lookup_lt_is_Some_2 a5 pi5 ltac:(lia)) as [w Hw].
  split.
  { apply (touches_trans _ _ _ a3); [exact Ht3|].
    apply (touches_trans _ _ _ a4); [apply swap_touches; lia|].
    apply (touches_trans _ _ _ a5);
      [apply (touches_weaken (pl + 1) (pr - 2)); [lia|lia|exact Ht5]|].
    apply swap_touches; lia. }
  split; [lia|]. exists y3.
  split. { rewrite swap_lookup by lia. by rewrite decide_True by done. }
  split.
  - intros k x Hk. rewrite swap_lookup by lia.
    rewrite !decide_False by lia. by apply Hlow.
  - intros k x Hk. rewrite swap_lookup by lia.
    rewrite decide_False by lia. case_decide.
    + rewrite Hw. intros [= <-]. apply (Hhigh pi5); [lia|done].
    + apply Hhigh. lia.
Qed.


Lemma seg_split (a : list (Z * entry)) (lo hi : nat) :
  (lo ≤ S hi)%nat → a = take lo a ++ seg a lo hi ++ drop (S hi) a.
Proof.
  intros H. unfold seg.
  rewrite <- (take_drop lo a) at 1. f_equal.
  rewrite <- (take_drop (S hi - lo) (drop lo a)) at 1. f_equal.
  rewrite drop_drop. f_equal. lia.
Qed.

Lemma seg_lookup (a : list (Z * entry)) (lo hi k : nat) :
  (lo ≤ k ≤ hi)%nat → seg a lo hi !! (k - lo)%nat = a !! k.
Proof.
  intros H. unfold seg. rewrite lookup_take_lt by lia.
  rewrite lookup_drop. f_equal. lia.
Qed.

Lemma length_seg (a : list (Z * entry)) (lo hi : nat) :
  (hi < length a)%nat → (lo ≤ S hi)%nat → length (seg a lo hi) = (S hi - lo)%nat.
Proof. intros. unfold seg. rewrite length_take, length_drop. lia. Qed.

Lemma touches_seg lo hi (a b : list (Z * entry)) :
  touches lo hi a b → (lo ≤ S hi)%nat → seg b lo hi ≡ₚ seg a lo hi.
Proof.
  intros [Hp Hf] Hle.
  assert (Ht : take lo b = take lo a).
  { apply list_eq. intros k. destruct (decide (k < lo)%nat).
    - rewrite !lookup_take_lt by done. apply Hf. lia.
    - by rewrite !lookup_take_ge by lia. }
  assert (Hd : drop (S hi) b = drop (S hi) a).
  { apply list_eq. intros k. rewrite !lookup_drop. apply Hf. lia. }
  rewrite (seg_split a lo hi Hle) in Hp at 1.
  rewrite (seg_split b lo hi Hle) in Hp at 1.
  rewrite Ht, Hd in Hp.
  apply Permutation_app_inv_l in Hp. by apply Permutation_app_inv_r in Hp.
Qed.

(** A bound on the rows of a range survives a rearrangement that stays
    inside the range or outside it. *)
Lemma range_bound_touches (P : (Z * entry) → Prop) lo hi l h (a b : list (Z * entry)) :
  touches lo hi a b → (lo ≤ S hi)%nat →
  (l ≤ lo ∧ hi ≤ h)%nat ∨ (hi < l ∨ h < lo)%nat →
  (∀ k x, (l ≤ k ≤ h)%nat → a !! k = Some x → P x) →
  (∀ k x, (l ≤ k ≤ h)%nat → b !! k = Some x → P x).
Proof.
  intros Ht Hle [Hin|Hout] HP k x Hk Hx.
  - destruct (decide (lo ≤ k ≤ hi)%nat) as [Hkin|Hkout].
    + rewrite <- (seg_lookup b lo hi) in Hx by done.
      apply list_elem_of_lookup_2 in Hx.
      rewrite (touches_seg _ _ _ _ Ht Hle) in Hx.
      apply list_elem_of_lookup_1 in Hx as [k' Hk'].
      assert (Hk'lt : (k' < S hi - lo)%nat).
      { apply lookup_lt_Some in Hk'. unfold seg in Hk'.
        rewrite length_take in Hk'. lia. }
      replace k' with (lo + k' - lo)%nat in Hk' by lia.
      rewrite seg_lookup in Hk' by lia. apply (HP (lo + k')%nat); [lia|done].
    + destruct Ht as [_ Hf]. rewrite Hf in Hx by lia. by apply (HP k).
  - destruct Ht as [_ Hf]. rewrite Hf in Hx by lia. by apply (HP k).
Qed.

Lemma sorted_range_untouched lo hi l h (a b : list (Z * entry)) :
  touches lo hi a b → (hi < l ∨ h < lo)%nat →
  sorted_range a l h → sorted_range b l h.
Proof.
  intros [_ Hf] Hout Hs i j x y Hi Hij Hj Hx Hy.
  rewrite Hf in Hx by lia. rewrite Hf in Hy by lia. by apply (Hs i j).
Qed.

Lemma StronglySorted_lookup_le (l : list (Z * entry)) (i j : nat) (x y : (Z * entry)) :
  StronglySorted (λ a b : Z * entry, (a.1 ≤ b.1)%Z) l → (i ≤ j)%nat →
  l !! i = Some x → l !! j = Some y → (x.1 ≤ y.1)%Z.
Proof.
  intros Hs. revert i j. induction Hs as [|z l Hs IH Hz]; intros i j Hij Hx Hy; [done|].
  destruct i as [|i], j as [|j]; cbn in Hx, Hy.
  - injection Hx as <-. injection Hy as <-. lia.
  - injection Hx as <-. eapply Forall_forall in Hz; [exact Hz|].
    by eapply list_elem_of_lookup_2.
  - lia.
  - apply (IH i j); [lia|done..].
Qed.

Lemma insertion_range_correct (a : list (Z * entry)) (pl pr : nat) :
  (pl ≤ pr)%nat → (pr < length a)%nat →
  touches pl pr a (insertion_range a pl pr) ∧
  sorted_range (insertion_range a pl pr) pl pr.
Proof.
  intros Hle Hlen.
  assert (HL : length (take pl a) = pl) by (rewrite length_take; lia).
  assert (HM : length (seg a pl pr) = (S pr - pl)%nat) by (apply length_seg; lia).
  assert (Heq : insertion_range a pl pr =
                take pl a ++ isort (seg a pl pr) ++ drop (S pr) a).
  { pose proof (insertion_range_spec (take pl a) (seg a pl pr) (drop (S pr) a)) as H.
    rewrite <- (seg_split a pl pr) in H by lia. rewrite HL, HM in H.
    replace (pl + (S pr - pl) - 1)%nat with pr in H by lia. exact H. }
  rewrite Heq. clear Heq.
  assert (Hsplit := seg_split a pl pr ltac:(lia)).
  set (L := take pl a) in *. set (M := seg a pl pr) in *.
  set (R := drop (S pr) a) in *.
  assert (HI : length (isort M) = (S pr - pl)%nat) by (by rewrite length_isort).
  split; [split|].
  - rewrite Hsplit. by rewrite isort_perm.
  - intros k Hk. rewrite Hsplit. destruct Hk as [Hk|Hk].
    + by rewrite !lookup_app_l by lia.
    + rewrite !(lookup_app_r L) by lia.
      rewrite (lookup_app_r (isort M)) by lia. rewrite (lookup_app_r M) by lia.
      by rewrite HI, HM.
  - intros i j x y Hi Hij Hj.
    rewrite !(lookup_app_r L) by lia. rewrite !(lookup_app_l (isort M)) by lia.
    apply StronglySorted_lookup_le; [apply isort_sorted|lia].
Qed.

Lemma pivot_between (a : list (Z * entry)) (pl pi pr : nat) (p : (Z * entry)) :
  (pl < pi < pr)%nat → a !! pi = Some p →
  sorted_range a pl (pi - 1) → sorted_range a (pi + 1) pr →
  (∀ k x, (pl ≤ k ≤ pi - 1)%nat → a !! k = Some x → (x.1 ≤ p.1)%Z) →
  (∀ k x, (pi + 1 ≤ k ≤ pr)%nat → a !! k = Some x → (p.1 ≤ x.1)%Z) →
  sorted_range a pl pr.
Proof.
  intros Hpi Hp Hleft Hright Hlow Hhigh i j x y Hi Hij Hj Hx Hy.
  destruct (decide (j < pi)%nat); [apply (Hleft i j); (lia || done)|].
  destruct (decide (pi < i)%nat); [apply (Hright i j); (lia || done)|].
  assert (Hxp : (x.1 ≤ p.1)%Z).
  { destruct (decide (i = pi)) as [->|].
    - rewrite Hp in Hx. injection Hx as <-. lia.
    - apply (Hlow i); [lia|done]. }
  assert (Hpy : (p.1 ≤ y.1)%Z).
  { destruct (decide (j = pi)) as [->|].
    - rewrite Hp in Hy. injection Hy as <-. lia.
    - apply (Hhigh j); [lia|done]. }
  lia.
Qed.

Lemma quicksort_range_correct :
  ∀ fuel (a : list (Z * entry)) (pl pr : nat),
  (pl ≤ pr)%nat → (pr < length a)%nat → (pr - pl < fuel)%nat →
  touches pl pr a (quicksort_range fuel a pl pr) ∧
  sorted_range (quicksort_range fuel a pl pr) pl pr.
Proof.
  induction fuel as [|fuel IH]; intros a pl pr Hle Hlen Hfuel; [lia|].
  cbn [quicksort_range].
  destruct (SMALL_QUICKSORT <? S (pr - pl))%nat eqn:E;
    [|by apply insertion_range_correct].
  apply Nat.ltb_lt in E. unfold SMALL_QUICKSORT in E.
  destruct (partition a pl pr) as [a1 pi] eqn:Hpart.
  apply partition_spec in Hpart as (Ht1 & Hpi & p & Hp & Hlow & Hhigh); [|lia..].
  assert (Hlen1 : length a1 = length a) by (by apply touches_length in Ht1).
  assert (Hlow1 : ∀ k x, (pl ≤ k ≤ pi - 1)%nat → a1 !! k = Some x → (x.1 ≤ p.1)%Z).
  { intros k x Hk. apply Hlow. lia. }
  assert (Hhigh1 : ∀ k x, (pi + 1 ≤ k ≤ pr)%nat → a1 !! k = Some x → (p.1 ≤ x.1)%Z).
  { intros k x Hk. apply Hhigh. lia. }
  destruct (pi - pl <? pr - pi)%nat.
  - (* the left side first, then the right side *)
    destruct (IH a1 pl (pi - 1)%nat) as [Ht2 Hs2]; [lia..|].
    set (a2 := quicksort_range fuel a1 pl (pi - 1)) in *.
    assert (Hlen2 : length a2 = length a) by (apply touches_length in Ht2; lia).
    destruct (IH a2 (pi + 1)%nat pr) as [Ht3 Hs3]; [lia..|].
    set (a3 := quicksort_range fuel a2 (pi + 1) pr) in *.
    split.
    + apply (touches_trans _ _ _ a1); [done|].
      apply (touches_trans _ _ _ a2);
        [apply (touches_weaken pl (pi - 1)); (lia || done)|
         apply (touches_weaken (pi + 1) pr); (lia || done)].
    + apply (pivot_between a3 pl pi pr p); [lia| | |done| |].
      * destruct Ht3 as [_ Hf3]. rewrite Hf3 by lia.
        destruct Ht2 as [_ Hf2]. rewrite Hf2 by lia. done.
      * apply (sorted_range_untouched (pi + 1) pr _ _ a2); [done|lia|done].
      * apply (range_bound_touches _ (pi + 1) pr pl (pi - 1) a2); [done|lia|lia|].
        apply (range_bound_touches _ pl (pi - 1) pl (pi - 1) a1); [done|lia|lia|done].
      * apply (range_bound_touches _ (pi + 1) pr (pi + 1) pr a2); [done|lia|lia|].
        apply (range_bound_touches _ pl (pi - 1) (pi + 1) pr a1); [done|lia|lia|done].
  - (* the right side first, then the left side *)
    destruct (IH a1 (pi + 1)%nat pr) as [Ht2 Hs2]; [lia..|].
    set (a2 := quicksort_range fuel a1 (pi + 1) pr) in *.
    assert (Hlen2 : length a2 = length a) by (apply touches_length in Ht2; lia).
    destruct (IH a2 pl (pi - 1)%nat) as [Ht3 Hs3]; [lia..|].
    set (a3 := quicksort_range fuel a2 pl (pi - 1)) in *.
    split.
    + apply (touches_trans _ _ _ a1); [done|].
      apply (touches_trans _ _ _ a2);
        [apply (touches_weaken (pi + 1) pr); (lia || done)|
         apply (touches_weaken pl (pi - 1)); (lia || done)].
    + apply (pivot_between a3 pl pi pr p); [lia| |done| | |].
      * destruct Ht3 as [_ Hf3]. rewrite Hf3 by lia.
        destruct Ht2 as [_ Hf2]. rewrite Hf2 by lia. done.
      * apply (sorted_range_untouched pl (pi - 1) _ _ a2); [done|lia|done].
      * apply (range_bound_touches _ pl (pi - 1) pl (pi - 1) a2); [done|lia|lia|].
        apply (range_bound_touches _ (pi + 1) pr pl (pi - 1) a1); [done|lia|lia|done].
      * apply (range_bound_touches _ pl (pi - 1) (pi + 1) pr a2); [done|lia|lia|].
        apply (range_bound_touches _ (pi + 1) pr (pi + 1) pr a1); [done|lia|lia|done].
Qed.

Lemma sorted_range_Sorted (l : list (Z * entry)) :
  sorted_range l 0 (length l - 1) → Sorted (λ a b : Z * entry, (a.1 ≤ b.1)%Z) l.
Proof.
  induction l as [|x l IH]; intros Hs; [constructor|].
  constructor.
  - apply IH. intros i j y z Hi Hij Hj Hy Hz.
    pose proof (lookup_lt_Some _ _ _ Hz) as Hjl.
    apply (Hs (S i) (S j)); cbn [length]; [lia|lia|lia|exact Hy|exact Hz].
  - destruct l as [|y l]; constructor.
    apply (Hs 0%nat 1%nat); cbn [length]; [lia|lia|lia|reflexivity|reflexivity].
Qed.

(** The default sort meets the contract of [sort_values]: it returns the
    same rows, in ascending order of date. *)
Lemma numpy_quicksort_contract : sort_contract numpy_quicksort.
Proof.
  intros l. unfold numpy_quicksort.
  destruct l as [|x l]; [split; [done|constructor]|].
  destruct (quicksort_range_correct (length (x :: l)) (x :: l) 0 (length (x :: l) - 1))
    as [[Hp _] Hs]; [cbn [length]; lia..|].
  split; [done|]. apply sorted_range_Sorted.
  by rewrite (Permutation_length Hp).
Qed.

End QuicksortFacts.

(** * Properties of preprocess_data *)

Module NormalizerFacts.
Import Normalizer QuicksortFacts.

(** *** The two insertion sorts meet the contract of [sort_values] *)

Section insertion.

Variable before : Z → Z → bool.
Hypothesis before_true : ∀ a b, before a b = true → a ≤ b.
Hypothesis before_false : ∀ a b, before a b = false → b ≤ a.

Lemma insert_by_perm x l : insert_by before x l ≡ₚ x :: l.
Proof.
  induction l as [|y l IH]; [done|]. cbn.
  destruct (before x.1 y.1); [done|].
  rewrite IH. apply Permutation_swap.
Qed.

Lemma insert_by_hd x y l :
  y.1 ≤ x.1 → HdRel (λ a b, a.1 ≤ b.1) y l →
  HdRel (λ a b, a.1 ≤ b.1) y (insert_by before x l).
Proof.
  intros Hyx Hhd. destruct l as [|z l]; cbn; [by constructor|].
  destruct (before x.1 z.1); constructor; [done|].
  by apply HdRel_inv in Hhd.
Qed.

Lemma insert_by_sorted x l :
  Sorted (λ a b, a.1 ≤ b.1) l → Sorted (λ a b, a.1 ≤ b.1) (insert_by before x l).
Proof.
  induction 1 as [|y l Hl IH Hhd]; cbn; [by repeat constructor|].
  destruct (before x.1 y.1) eqn:E.
  - constructor; [by constructor|]. constructor. by apply before_true.
  - constructor; [done|]. apply insert_by_hd; [|done]. by apply before_false.
Qed.

Lemma sort_by_contract : sort_contract (sort_by before).
Proof.
  intros l. unfold sort_by. induction l as [|x l [IHp IHs]]; cbn.
  - split; [done|constructor].
  - split; [by rewrite insert_by_perm, IHp|by apply insert_by_sorted].
Qed.

End insertion.

Lemma stable_sort_contract : sort_contract stable_sort.
Proof. apply sort_by_contract; intros a b; lia. Qed.

Lemma insert_leb_keeps_ties (t : Z) x l :
  filter (λ p, p.1 = t) (insert_by Z.leb x l) = filter (λ p, p.1 = t) (x :: l).
Proof.
  induction l as [|y l IH]; [done|]. cbn [insert_by].
  destruct (x.1 <=? y.1) eqn:E; [done|]. apply Z.leb_gt in E.
  rewrite (filter_cons _ y), IH, !filter_cons.
  destruct (decide (y.1 = t)), (decide (x.1 = t)); try done; lia.
Qed.

(** The stable sort keeps, for every date, the rows of that date in the
    order they had. *)
Lemma stable_sort_keeps_ties (t : Z) l :
  filter (λ p, p.1 = t) (stable_sort l) = filter (λ p, p.1 = t) l.
Proof.
  unfold stable_sort, sort_by. induction l as [|x l IH]; [done|]. cbn [foldr].
  by rewrite insert_leb_keeps_ties, !filter_cons, IH.
Qed.

(** *** The pipeline *)

#[local] Instance date_le_trans : Transitive (λ a b : Z * entry, a.1 ≤ b.1).
Proof. intros a b c. lia. Qed.

Lemma retained_dates to_datetime df :
  (retained to_datetime df).*1 =
    omap (λ r, to_datetime (fillna (date r))) (rows df).
Proof.
  unfold retained, dropna. induction (rows df) as [|r l IH]; [done|].
  rewrite fmap_cons. cbn [omap list_omap fst snd fill_row].
  destruct (to_datetime (fillna (date r))); cbn [mbind option_bind].
  - rewrite fmap_cons. cbn [fst]. f_equal. exact IH.
  - exact IH.
Qed.

Lemma preprocess_data_inr to_datetime sort_values df out :
  preprocess_data to_datetime sort_values df = inr out →
  (out_rows out).*1 = (sort_values (retained to_datetime df)).*1.
Proof.
  unfold preprocess_data. destruct (cleaned _ _ _) eqn:E; [done|].
  rewrite <- E. intros [= <-]. unfold out_rows, cleaned.
  rewrite <- !list_fmap_compose. by apply list_fmap_ext.
Qed.

Lemma preprocess_data_returns to_datetime sort_values df :
  sort_values (retained to_datetime df) ≠ [] →
  ∃ out, preprocess_data to_datetime sort_values df = inr out.
Proof.
  intros Hne. unfold preprocess_data, cleaned.
  destruct (sort_values _); [done|]. cbn. by eexists.
Qed.

Lemma unique_date_rows (l : list (Z * entry)) x y :
  NoDup l.*1 → x ∈ l → y ∈ l → x.1 = y.1 → x = y.
Proof.
  induction l as [|z l IH]; intros Hnd Hx Hy Hxy; [by apply elem_of_nil in Hx|].
  rewrite fmap_cons in Hnd. apply NoDup_cons in Hnd as [Hz Hnd].
  apply elem_of_cons in Hx as [->|Hx], Hy as [->|Hy]; auto.
  - exfalso. apply Hz. rewrite Hxy. by apply list_elem_of_fmap_2.
  - exfalso. apply Hz. rewrite <- Hxy. by apply list_elem_of_fmap_2.
Qed.

(** What a successful call returns, spelled out. *)
Lemma preprocess_data_out to_datetime sort_values df out :
  preprocess_data to_datetime sort_values df = inr out →
  cleaned to_datetime sort_values df ≠ [] ∧
  columns out =
    kept_columns
      (concat_columns (other_columns df)
         (categories (e_msg_type <$> (cleaned to_datetime sort_values df).*2))) ∧
  out_rows out =
    (λ p, (p.1,
           kept_values
             (concat_columns (other_columns df)
                (categories (e_msg_type <$> (cleaned to_datetime sort_values df).*2)))
             (concat_values
                (categories (e_msg_type <$> (cleaned to_datetime sort_values df).*2))
                p.2)))
    <$> cleaned to_datetime sort_values df.
Proof.
  unfold preprocess_data. destruct (cleaned _ _ _) eqn:E; [done|].
  rewrite <- E. intros [= <-]. split; [by rewrite E|]. done.
Qed.

(** *** The categories do not depend on the order of the rows *)

Lemma elem_of_insert_category (x c : string) (cats : list string) :
  x ∈ insert_category c cats ↔ x = c ∨ x ∈ cats.
Proof.
  induction cats as [|d cats IH]; cbn [insert_category].
  - rewrite list_elem_of_singleton, elem_of_nil. tauto.
  - destruct (String.eqb_spec c d) as [->|Hne].
    + rewrite elem_of_cons. tauto.
    + destruct (String.leb c d).
      * rewrite elem_of_cons. tauto.
      * rewrite !elem_of_cons, IH. tauto.
Qed.

Lemma elem_of_categories (x : string) (col : list string) :
  x ∈ categories col ↔ x ∈ col.
Proof.
  unfold categories. induction col as [|c col IH]; [done|].
  cbn [foldr]. rewrite elem_of_insert_category, elem_of_cons, IH. tauto.
Qed.








(** C8, as the code has it: if at least one timestamp parses, the call
    returns, and the timestamps of the output are those of the rows whose
    timestamp parses, each once; the rows whose timestamp does not parse
    are left out. *)
Theorem unparseable_rows_dropped to_datetime sort_values df :
  sort_contract sort_values →
  (∃ r, r ∈ rows df ∧ is_Some (to_datetime (fillna (date r)))) →
  ∃ out,
    preprocess_data to_datetime sort_values df = inr out ∧
    (out_rows out).*1 ≡ₚ omap (λ r, to_datetime (fillna (date r))) (rows df) ∧
    length (out_rows out) =
      length (filter (λ r, is_Some (to_datetime (fillna (date r)))) (rows df)).
Proof.
  intros Hsort (r & Hr & [t Ht]).
  destruct (Hsort (retained to_datetime df)) as [Hp _].
  assert (Hin : t ∈ (retained to_datetime df).*1).
  { rewrite retained_dates. apply list_elem_of_omap. eauto. }
  destruct (preprocess_data_returns to_datetime sort_values df) as [out Hout].
  { intros E. rewrite E in Hp. apply Permutation_nil in Hp.
    rewrite Hp in Hin. by apply elem_of_nil in Hin. }
  exists out. split; [done|].
  assert (Hdates : (out_rows out).*1 ≡ₚ
                   omap (λ r, to_datetime (fillna (date r))) (rows df)).
  { by rewrite (preprocess_data_inr _ _ _ _ Hout), Hp, retained_dates. }
  split; [done|].
  rewrite <- (length_fmap fst), Hdates. clear.
  induction (rows df) as [|r l IH]; [done|].
  rewrite filter_cons. cbn [omap list_omap].
  destruct (to_datetime (fillna (date r))).
  - rewrite decide_True by done. cbn [length]. by rewrite IH.
  - rewrite decide_False by (by intros [? ?]). done.
Qed.


(** On a short frame the default sort is an insertion sort and keeps the
    rows of equal timestamp in their order. *)
Lemma two_ties_keep_order :
  preprocess_data example_to_datetime numpy_quicksort tied_frame =
  preprocess_data example_to_datetime stable_sort tied_frame.
Proof. reflexivity. Qed.

(** C8 as stated fails: when no timestamp parses, the frame that reaches
    the encoder has no rows and the call ends in ValueError. *)
Lemma unparseable_frame_raises :
  preprocess_data example_to_datetime stable_sort unparseable_frame = inl ValueError.
Proof. reflexivity. Qed.

(** C7: on [cancelled_frame] the indicator of ANNOUNCE_MEAL_CANCELLED, which
    is not one of the five relevant categories, stays in the output because
    its name contains the name of one; the indicator of MEAL_END and the
    [msg_type] column itself are gone. *)
Theorem substring_test_keeps_extended_category :
  ∃ out,
    preprocess_data example_to_datetime stable_sort cancelled_frame = inr out ∧
    ("ANNOUNCE_MEAL_CANCELLED" ∉ RELEVANT_MSG_TYPES) ∧
    feature_name "ANNOUNCE_MEAL_CANCELLED" ∈ columns out ∧
    (feature_name "MEAL_END" ∉ columns out) ∧
    ("msg_type" ∉ columns out).
Proof.
  eexists. split; [vm_compute; reflexivity|]. cbn [columns].
  split; [|split; [|split]]; apply (bool_decide_unpack _); vm_compute; exact I.
Qed.

(** *** The theorems at concrete frames *)


Lemma unparseable_rows_dropped_witness :
  sort_contract stable_sort ∧
  (∃ r, r ∈ rows mixed_frame ∧ is_Some (example_to_datetime (fillna (date r)))) ∧
  ∃ out,
    preprocess_data example_to_datetime stable_sort mixed_frame = inr out ∧
    (out_rows out).*1 ≡ₚ
      omap (λ r, example_to_datetime (fillna (date r))) (rows mixed_frame) ∧
    length (out_rows out) =
      length (filter (λ r, is_Some (example_to_datetime (fillna (date r))))
                     (rows mixed_frame)).
Proof.
  assert (H : ∃ r, r ∈ rows mixed_frame ∧
                   is_Some (example_to_datetime (fillna (date r)))).
  { eexists. split; [apply list_elem_of_here|]. by eexists. }
  split; [exact stable_sort_contract|]. split; [exact H|].
  exact (unparseable_rows_dropped example_to_datetime stable_sort mixed_frame
           stable_sort_contract H).
Defined.

End NormalizerFacts.

(** * Further properties of create_meal_labels *)

Module LabelerMore.
Import Labeler LabelerFacts.

Lemma trace_take cs fl k : take k (trace cs fl) = trace cs (take k fl).
Proof.
  revert cs k. induction fl as [|f fl IH]; intros cs [|k]; cbn; try done.
  by rewrite IH.
Qed.

(** X1: the labels of the first [k] rows do not depend on the rows after
    them: labelling a prefix of a frame gives the prefix of the labels. *)
Theorem labels_of_prefix (df : list row) (k : nat) :
  create_meal_labels (take k df) = take k <$> create_meal_labels df.
Proof.
  rewrite !create_meal_labels_spec. cbn. f_equal.
  by rewrite trace_take, flags_take.
Qed.

Lemma trace_no_start cs fl :
  cs.2 = [] → Forall (λ f : bool * bool, f.1 = false) fl →
  trace cs fl = replicate (length fl) 0.
Proof.
  revert cs. induction fl as [|f fl IH]; intros cs Hcs Hfl; [done|].
  apply Forall_cons in Hfl as [Hf Hfl]. cbn [trace length replicate].
  unfold emit, advance, opened. rewrite Hf, Hcs. cbn [fst snd last default].
  f_equal. apply IH; [|done]. cbn [snd]. by destruct f.2.
Qed.

(** X2: a frame without any ANNOUNCE_MEAL row is labelled 0 throughout,
    whatever else it holds (MEAL_END rows included). *)
Theorem no_start_all_zero (df : list row) :
  Forall (λ r, msg_type r ≠ Some "ANNOUNCE_MEAL") df →
  create_meal_labels df = Some (replicate (length df) 0).
Proof.
  intros Hdf. rewrite create_meal_labels_spec. f_equal.
  rewrite trace_no_start; [by rewrite flags_fmap, length_fmap|done|].
  rewrite flags_fmap. apply Forall_fmap. eapply Forall_impl; [exact Hdf|].
  intros r Hr. cbn. by apply bool_decide_eq_false.
Qed.

(** X3: a row is labelled 0 exactly when it is not a meal start and no
    meal is open on entry to its iteration. *)
Theorem zero_iff_nothing_open (df : list row) (i : nat) (r : row) :
  df !! i = Some r →
  ∃ st lbls,
    state_after df i = Some st ∧ create_meal_labels df = Some lbls ∧
    (lbls !! i = Some 0 ↔
     msg_type r ≠ Some "ANNOUNCE_MEAL" ∧ active_meals st = []).
Proof.
  intros Hr.
  assert (Hi : (i < length df)%nat) by by apply lookup_lt_Some in Hr.
  do 2 eexists. split; [apply state_after_spec; lia|].
  split; [apply create_meal_labels_spec|].
  cbn [active_meals].
  rewrite (trace_lookup _ _ _ _ (flags_lookup _ _ _ Hr)), flags_take.
  destruct (inv_track (flags (take i df))) as (Hc & _ & Hf).
  set (cs := track (1, []) (flags (take i df))) in *.
  unfold emit, opened, row_flags. cbn [fst snd].
  destruct (decide (msg_type r = Some "ANNOUNCE_MEAL")) as [E|E].
  - rewrite bool_decide_true by done. cbn [snd]. rewrite last_snoc. cbn.
    split; [intros [= H]; lia|intros [? _]; done].
  - rewrite bool_decide_false by done.
    destruct (last cs.2) as [top|] eqn:Hl; cbn.
    + apply last_Some in Hl as [l' Hl]. rewrite Hl in Hf.
      apply Forall_app in Hf as [_ Hf]. apply Forall_inv in Hf.
      split; [intros [= H]; lia|]. intros [_ H]. rewrite Hl in H.
      by destruct l'.
    + apply last_None in Hl. done.
Qed.

Lemma StronglySorted_snoc_notin (l : list Z) (t : Z) :
  StronglySorted Z.lt (l ++ [t]) → t ∉ l.
Proof.
  intros Hs Hin.
  pose proof (StronglySorted_app_1_elem_of _ _ _ _ _ Hs Hin
                (list_elem_of_here t [])) as Hlt.
  lia.
Qed.

(** X4: a MEAL_END row met with a meal open is still labelled with that
    meal's identifier, takes it off the stack, and the identifier labels no
    later row: a closed meal never comes back. *)
Theorem closed_meal_never_returns (df : list row) (i : nat) (r : row)
    (st : loop_state) (below : list Z) (t : Z) :
  df !! i = Some r → msg_type r = Some "MEAL_END" →
  state_after df i = Some st → active_meals st = below ++ [t] →
  ∃ st' lbls,
    state_after df (S i) = Some st' ∧ active_meals st' = below ∧
    meal_counter st' = meal_counter st ∧
    create_meal_labels df = Some lbls ∧ lbls !! i = Some t ∧
    ∀ j, (i < j)%nat → lbls !! j ≠ Some t.
Proof.
  intros Hr Hm Hst Hstk.
  assert (Hi : (i < length df)%nat) by by apply lookup_lt_Some in Hr.
  assert (Hf : row_flags r = (false, true)) by (unfold row_flags; by rewrite Hm).
  rewrite state_after_spec in Hst by lia. injection Hst as <-.
  cbn [active_meals meal_counter] in *.
  destruct (inv_track (flags (take i df))) as (Hc & Hsorted & Hbelow).
  set (cs := track (1, []) (flags (take i df))) in *.
  assert (Hadv : advance cs (false, true) = (cs.1, below)).
  { unfold advance, opened. cbn [fst snd]. by rewrite Hstk, removelast_last. }
  assert (Htrack : track (1, []) (flags (take (S i) df)) = (cs.1, below)).
  { rewrite (take_S_r _ _ _ Hr), flags_app, (flags_cons r []).
    change (flags []) with (@nil (bool * bool)).
    by rewrite track_snoc, Hf. }
  do 2 eexists. split; [apply state_after_spec; lia|].
  cbn [active_meals meal_counter]. rewrite Htrack. cbn [fst snd].
  split; [done|]. split; [done|].
  split; [apply create_meal_labels_spec|]. split.
  { rewrite (trace_lookup _ _ _ _ (flags_lookup _ _ _ Hr)), flags_take, Hf.
    unfold emit, opened. cbn [fst snd]. fold cs. by rewrite Hstk, last_snoc. }
  intros j Hj Hv.
  rewrite <- (take_drop (S i) df), flags_app, trace_app, Htrack in Hv.
  rewrite lookup_app_r in Hv.
  2:{ rewrite length_trace, flags_fmap, length_fmap, length_take. lia. }
  rewrite Hstk in Hsorted, Hbelow.
  apply Forall_app in Hbelow as [_ Ht]. apply Forall_inv in Ht.
  by eapply (trace_absent t) in Hv; cbn [fst snd];
    [|lia|by apply StronglySorted_snoc_notin].
Qed.

Lemma track_no_end fl :
  Forall (λ f : bool * bool, f.2 = false) fl →
  default 0 (last (track (1, []) fl).2) = (track (1, []) fl).1 - 1.
Proof.
  induction fl as [|f fl IH] using rev_ind; intros Hfl; [done|].
  apply Forall_app in Hfl as [Hfl Hf]. apply Forall_inv in Hf.
  rewrite track_snoc. unfold advance, opened. rewrite Hf.
  destruct f.1; cbn [fst snd].
  - rewrite last_snoc. cbn. lia.
  - by apply IH.
Qed.

(** X5: in a frame without any MEAL_END row every row is labelled with the
    number of meal-start rows met so far, itself included: the labels only
    grow, and the latest meal always wins. *)
Theorem no_end_running_count (df : list row) :
  Forall (λ r, msg_type r ≠ Some "MEAL_END") df →
  ∃ lbls, create_meal_labels df = Some lbls ∧
          ∀ i, (i < length df)%nat →
               lbls !! i = Some (Z.of_nat (starts (take (S i) df))).
Proof.
  intros Hdf. eexists. split; [apply create_meal_labels_spec|].
  intros i Hi. destruct (lookup_lt_is_Some_2 df i Hi) as [r Hr].
  assert (Hnoend : ∀ k, Forall (λ f : bool * bool, f.2 = false) (flags (take k df))).
  { intros k. rewrite flags_fmap. apply Forall_fmap, Forall_take.
    eapply Forall_impl; [exact Hdf|]. intros r' Hr'. cbn.
    by apply bool_decide_eq_false. }
  pose proof (track_no_end _ (Hnoend (S i))) as Hlast.
  pose proof (counter_after df (S i)) as Hc.
  rewrite (trace_lookup _ _ _ _ (flags_lookup _ _ _ Hr)), flags_take. f_equal.
  revert Hlast Hc.
  rewrite (take_S_r _ _ _ Hr), flags_app, (flags_cons r []).
  change (flags []) with (@nil (bool * bool)). rewrite track_snoc.
  rewrite <- (take_S_r _ _ _ Hr).
  unfold advance, emit.
  assert (Hr2 : (row_flags r).2 = false).
  { eapply Forall_lookup_1 in Hdf; [|exact Hr]. cbn. by apply bool_decide_eq_false. }
  rewrite Hr2. cbn [fst snd]. intros -> ->. lia.
Qed.

Lemma track_depth cs fl :
  (length (track cs fl).2 ≤ length cs.2 + nstarts fl)%nat.
Proof.
  induction fl as [|f fl IH] using rev_ind; [cbn; lia|].
  rewrite track_snoc, nstarts_snoc. unfold advance, opened.
  destruct f as [[] []]; cbn [fst snd];
    rewrite ?removelast_firstn_len, ?length_take, ?length_app; cbn [length]; lia.
Qed.

(** X6: after any number [k] of iterations the stack holds at most as many
    identifiers as there are meal-start rows among the first [k] rows. *)
Theorem open_meals_bounded (df : list row) (k : nat) :
  (k ≤ length df)%nat →
  ∃ st, state_after df k = Some st ∧
        (length (active_meals st) ≤ starts (take k df))%nat.
Proof.
  intros Hk. eexists. split; [by apply state_after_spec|].
  cbn [active_meals]. rewrite <- nstarts_flags.
  apply (track_depth (1, [])).
Qed.

Lemma nth_start_exists (df : list row) (n v : nat) :
  (1 ≤ v ≤ starts (take n df))%nat →
  ∃ j r, (j < n)%nat ∧ df !! j = Some r ∧
         msg_type r = Some "ANNOUNCE_MEAL" ∧ S (starts (take j df)) = v.
Proof.
  induction n as [|n IH]; intros Hv.
  { rewrite take_0 in Hv. cbn in Hv. lia. }
  destruct (df !! n) as [r|] eqn:Hr.
  - rewrite (starts_take_S _ _ _ Hr), nstarts_flags in Hv.
    destruct (decide (v ≤ starts (take n df))%nat) as [Hle|Hgt].
    + destruct IH as (j & r' & ? & ? & ? & ?); [lia|].
      exists j, r'. repeat split; (done || lia).
    + exists n, r. unfold row_flags in Hv. cbn [fst] in Hv.
      destruct (decide (msg_type r = Some "ANNOUNCE_MEAL")) as [E|E].
      * rewrite bool_decide_true in Hv by done. repeat split; (done || lia).
      * rewrite bool_decide_false in Hv by done. lia.
  - apply lookup_ge_None in Hr.
    rewrite (take_ge df (S n)) in Hv by lia.
    rewrite <- (take_ge df n) in Hv by lia.
    destruct IH as (j & r' & ? & ? & ? & ?); [lia|].
    exists j, r'. repeat split; (done || lia).
Qed.

Lemma start_row_label (df : list row) (j : nat) (r : row) :
  df !! j = Some r → msg_type r = Some "ANNOUNCE_MEAL" →
  trace (1, []) (flags df) !! j = Some (Z.of_nat (S (starts (take j df)))).
Proof.
  intros Hr Hm.
  rewrite (trace_lookup _ _ _ _ (flags_lookup _ _ _ Hr)), flags_take.
  unfold emit, opened, row_flags. rewrite Hm. cbn [fst snd].
  rewrite bool_decide_true by done. cbn [snd].
  by rewrite last_snoc, counter_after.
Qed.

(** X7: a label other than 0 is always the identifier of a meal-start row at
    or before the row that carries it: that start row is itself labelled
    with it, and it is the [v]-th start row of the frame. *)
Theorem label_comes_from_start (df : list row) (lbls : list Z) (i : nat) (v : Z) :
  create_meal_labels df = Some lbls → lbls !! i = Some v → v ≠ 0 →
  ∃ j r, (j ≤ i)%nat ∧ df !! j = Some r ∧
         msg_type r = Some "ANNOUNCE_MEAL" ∧
         v = Z.of_nat (S (starts (take j df))) ∧ lbls !! j = Some v.
Proof.
  rewrite create_meal_labels_spec. intros [= <-] Hv Hne.
  destruct (label_range _ _ _ Hv) as [?|Hrange]; [done|].
  destruct (nth_start_exists df (S i) (Z.to_nat v)) as (j & r & Hj & Hr & Hm & Hk);
    [lia|].
  exists j, r. split; [lia|]. split; [done|]. split; [done|].
  assert (Hvk : v = Z.of_nat (S (starts (take j df)))) by lia.
  split; [done|]. rewrite Hvk. by apply (start_row_label df j r).
Qed.

Lemma removelast_fmap {A B} (f : A → B) (l : list A) :
  removelast (f <$> l) = f <$> removelast l.
Proof.
  induction l as [|a [|b l] IH]; [done..|].
  change (removelast (f <$> a :: b :: l)) with (f a :: removelast (f <$> b :: l)).
  by rewrite IH.
Qed.

(** Starting the scan with every identifier moved up by [d] moves every
    label other than 0 up by [d]. *)
Lemma trace_shift (d c : Z) (stk : list Z) fl :
  1 ≤ c → Forall (λ x, 1 ≤ x < c) stk →
  trace (c + d, (λ x, x + d) <$> stk) fl =
  (λ v, if decide (v = 0) then 0 else v + d) <$> trace (c, stk) fl.
Proof.
  revert c stk. induction fl as [|f fl IH]; intros c stk Hc Hstk; [done|].
  cbn [trace fmap list_fmap].
  assert (Hopen : (opened (c + d, (λ x, x + d) <$> stk) f.1) =
                  ((opened (c, stk) f.1).1 + d,
                   (λ x, x + d) <$> (opened (c, stk) f.1).2)).
  { unfold opened. destruct f.1; cbn [fst snd]; [|done].
    rewrite fmap_app. cbn. f_equal. lia. }
  assert (Hinv : Forall (λ x, 1 ≤ x < (opened (c, stk) f.1).1)
                        (opened (c, stk) f.1).2).
  { unfold opened. destruct f.1; cbn [fst snd]; [|done].
    apply Forall_app. split.
    - eapply Forall_impl; [exact Hstk|]. cbn. lia.
    - apply Forall_singleton. lia. }
  assert (Hc1 : 1 ≤ (opened (c, stk) f.1).1).
  { unfold opened. destruct f.1; cbn [fst]; lia. }
  f_equal.
  - unfold emit. rewrite Hopen. cbn [snd]. rewrite fmap_last.
    destruct (last (opened (c, stk) f.1).2) as [top|] eqn:Hl; cbn; [|done].
    apply last_Some in Hl as [l' Hl]. rewrite Hl in Hinv.
    apply Forall_app in Hinv as [_ Hinv]. apply Forall_inv in Hinv.
    rewrite decide_False by lia. done.
  - unfold advance. rewrite Hopen. cbn [fst snd].
    destruct f.2.
    + rewrite removelast_fmap. apply IH; [done|]. by apply Forall_removelast.
    + by apply IH.
Qed.

(** X15: when no meal is open at the end of a first frame, labelling it
    followed by a second frame gives the labels of the first, then the labels
    of the second with every identifier moved up by the number of meals of
    the first (0 stays 0). *)
Theorem labels_of_concatenation (df1 df2 : list row) (st : loop_state) :
  state_after df1 (length df1) = Some st → active_meals st = [] →
  ∃ l1 l2,
    create_meal_labels df1 = Some l1 ∧ create_meal_labels df2 = Some l2 ∧
    create_meal_labels (df1 ++ df2) =
      Some (l1 ++ ((λ v, if decide (v = 0) then 0 else v + Z.of_nat (starts df1))
                   <$> l2)).
Proof.
  intros Hst Hempty. rewrite state_after_spec in Hst by done.
  injection Hst as <-. cbn [active_meals] in Hempty.
  rewrite firstn_all in Hempty.
  do 2 eexists. rewrite !create_meal_labels_spec.
  split; [done|]. split; [done|]. f_equal.
  rewrite flags_app, trace_app. f_equal.
  pose proof (counter_after df1 (length df1)) as Hc. rewrite firstn_all in Hc.
  rewrite (surjective_pairing (track _ _)), Hempty, Hc.
  rewrite <- (trace_shift (Z.of_nat (starts df1)) 1 []); [|lia|constructor].
  cbn [fmap list_fmap]. f_equal. f_equal. lia.
Qed.

(** X16: no identifier is skipped: for every [k] from 1 to the number of
    meal-start rows, the [k]-th meal-start row (the one with [k - 1]
    meal-start rows before it) is labelled [k]. *)
Theorem every_meal_labelled (df : list row) (k : nat) :
  (1 ≤ k ≤ starts df)%nat →
  ∃ lbls j r,
    create_meal_labels df = Some lbls ∧ df !! j = Some r ∧
    msg_type r = Some "ANNOUNCE_MEAL" ∧ S (starts (take j df)) = k ∧
    lbls !! j = Some (Z.of_nat k).
Proof.
  intros Hk. rewrite <- (firstn_all df) in Hk.
  destruct (nth_start_exists _ _ _ Hk) as (j & r & _ & Hr & Hm & <-).
  eexists _, j, r. split; [apply create_meal_labels_spec|].
  split; [done|]. split; [done|]. split; [done|].
  by apply (start_row_label df j r).
Qed.

(** *** The theorems at concrete frames *)

Lemma no_start_all_zero_witness :
  Forall (λ r, msg_type r ≠ Some "ANNOUNCE_MEAL") no_start_frame ∧
  create_meal_labels no_start_frame = Some (replicate (length no_start_frame) 0).
Proof.
  assert (H : Forall (λ r, msg_type r ≠ Some "ANNOUNCE_MEAL") no_start_frame)
    by (repeat constructor; done).
  split; [exact H|]. exact (no_start_all_zero no_start_frame H).
Defined.

Lemma zero_iff_nothing_open_witness :
  two_meals !! 0%nat = Some (Row NaN None None None []) ∧
  ∃ st lbls,
    state_after two_meals 0 = Some st ∧ create_meal_labels two_meals = Some lbls ∧
    (lbls !! 0%nat = Some 0 ↔
     msg_type (Row NaN None None None []) ≠ Some "ANNOUNCE_MEAL" ∧
     active_meals st = []).
Proof.
  split; [reflexivity|].
  exact (zero_iff_nothing_open two_meals 0 (Row NaN None None None []) eq_refl).
Defined.

Lemma closed_meal_never_returns_witness :
  state_after two_meals 2 = Some (LoopState [0; 1; 0; 0] 2 [1]) ∧
  ∃ st' lbls,
    state_after two_meals 3 = Some st' ∧ active_meals st' = [] ∧
    meal_counter st' = 2 ∧
    create_meal_labels two_meals = Some lbls ∧ lbls !! 2%nat = Some 1 ∧
    ∀ j, (2 < j)%nat → lbls !! j ≠ Some 1.
Proof.
  split; [reflexivity|].
  exact (closed_meal_never_returns two_meals 2 (event "MEAL_END")
           (LoopState [0; 1; 0; 0] 2 [1]) [] 1 eq_refl eq_refl eq_refl eq_refl).
Defined.

Lemma no_end_running_count_witness :
  Forall (λ r, msg_type r ≠ Some "MEAL_END") no_end_frame ∧
  ∃ lbls, create_meal_labels no_end_frame = Some lbls ∧
          ∀ i, (i < length no_end_frame)%nat →
               lbls !! i = Some (Z.of_nat (starts (take (S i) no_end_frame))).
Proof.
  assert (H : Forall (λ r, msg_type r ≠ Some "MEAL_END") no_end_frame)
    by (repeat constructor; done).
  split; [exact H|]. exact (no_end_running_count no_end_frame H).
Defined.

Lemma open_meals_bounded_witness :
  (3 ≤ length two_meals)%nat ∧
  ∃ st, state_after two_meals 3 = Some st ∧
        (length (active_meals st) ≤ starts (take 3 two_meals))%nat.
Proof.
  assert (H : (3 ≤ length two_meals)%nat) by (cbn; lia).
  split; [exact H|]. exact (open_meals_bounded two_meals 3 H).
Defined.

Lemma label_comes_from_start_witness :
  create_meal_labels two_meals = Some [0; 1; 1; 2] ∧
  ∃ j r, (j ≤ 2)%nat ∧ two_meals !! j = Some r ∧
         msg_type r = Some "ANNOUNCE_MEAL" ∧
         1 = Z.of_nat (S (starts (take j two_meals))) ∧
         [0; 1; 1; 2] !! j = Some 1.
Proof.
  split; [reflexivity|].
  apply (label_comes_from_start two_meals [0; 1; 1; 2] 2 1);
    [reflexivity|reflexivity|lia].
Defined.

Lemma labels_of_concatenation_witness :
  state_after [event "ANNOUNCE_MEAL"; event "MEAL_END"] 2 =
    Some (LoopState [1; 1] 2 []) ∧
  ∃ l1 l2,
    create_meal_labels [event "ANNOUNCE_MEAL"; event "MEAL_END"] = Some l1 ∧
    create_meal_labels no_end_frame = Some l2 ∧
    create_meal_labels ([event "ANNOUNCE_MEAL"; event "MEAL_END"] ++ no_end_frame) =
      Some (l1 ++ ((λ v, if decide (v = 0) then 0
                         else v + Z.of_nat (starts [event "ANNOUNCE_MEAL"; event "MEAL_END"]))
                   <$> l2)).
Proof.
  split; [reflexivity|].
  exact (labels_of_concatenation [event "ANNOUNCE_MEAL"; event "MEAL_END"]
           no_end_frame (LoopState [1; 1] 2 []) eq_refl eq_refl).
Defined.

Lemma every_meal_labelled_witness :
  (1 ≤ 2 ≤ starts two_meals)%nat ∧
  ∃ lbls j r,
    create_meal_labels two_meals = Some lbls ∧ two_meals !! j = Some r ∧
    msg_type r = Some "ANNOUNCE_MEAL" ∧ S (starts (take j two_meals)) = 2%nat ∧
    lbls !! j = Some (Z.of_nat 2).
Proof.
  assert (H : (1 ≤ 2 ≤ starts two_meals)%nat) by (vm_compute; lia).
  split; [exact H|]. exact (every_meal_labelled two_meals 2 H).
Defined.

End LabelerMore.

(** * Further properties of preprocess_data *)

Module NormalizerMore.
Import Normalizer QuicksortFacts NormalizerFacts.

#[local] Existing Instance date_le_trans.

Lemma elem_of_retained to_datetime df (q : Z * entry) :
  q ∈ retained to_datetime df ↔
  ∃ r, r ∈ rows df ∧ to_datetime (fillna (date r)) = Some q.1 ∧
       q.2 = (fill_row r).2.
Proof.
  unfold retained, dropna. rewrite list_elem_of_omap. split.
  - intros (p & Hp & Hq). apply list_elem_of_fmap in Hp as (r & -> & Hr).
    cbn [fst snd] in Hq. exists r. split; [done|].
    change (fill_row r).1 with (fillna (date r)) in Hq.
    destruct (to_datetime (fillna (date r))) as [t|]; [|done].
    cbn in Hq. injection Hq as <-. done.
  - intros (r & Hr & Ht & Hq). eexists. split.
    + apply list_elem_of_fmap. exists r. done.
    + cbn [fst snd]. change (fill_row r).1 with (fillna (date r)).
      rewrite Ht. cbn. destruct q. cbn in *. by rewrite Hq.
Qed.

(** X8: every row of the output stems from an input row whose timestamp
    parses and is indexed by that timestamp; under the column affects_fob,
    and likewise under affects_iob, wherever the column stands, it holds 1
    if that input row's flag is present and not zero, and 0 if the flag is
    zero or missing. *)
Theorem flags_coerced to_datetime sort_values df out :
  sort_contract sort_values →
  preprocess_data to_datetime sort_values df = inr out →
  ∃ i j : nat,
    columns out !! i = Some "affects_fob" ∧
    columns out !! j = Some "affects_iob" ∧
    ∀ p, p ∈ out_rows out →
      ∃ r,
        r ∈ rows df ∧ to_datetime (fillna (date r)) = Some p.1 ∧
        p.2 !! i =
          Some (Num (match affects_fob r with
                     | Some x => if decide (x = 0%Qc) then 0%Qc else 1%Qc
                     | None => 0%Qc
                     end)) ∧
        p.2 !! j =
          Some (Num (match affects_iob r with
                     | Some x => if decide (x = 0%Qc) then 0%Qc else 1%Qc
                     | None => 0%Qc
                     end)).
Proof.
  intros Hsort Hout.
  destruct (preprocess_data_out _ _ _ _ Hout) as (_ & Hcols & Hrows).
  assert (Hflag : ∀ f : option Qc,
            binarize (fillna_num f) =
            match f with
            | Some x => if decide (x = 0%Qc) then 0%Qc else 1%Qc
            | None => 0%Qc
            end).
  { intros [x|]; [done|]. unfold binarize, fillna_num. cbn. by case_decide. }
  exists 0%nat, 1%nat.
  split. { rewrite Hcols. reflexivity. }
  split. { rewrite Hcols. reflexivity. }
  intros p Hp. rewrite Hrows in Hp.
  apply list_elem_of_fmap in Hp as (q & -> & Hq).
  unfold cleaned in Hq. apply list_elem_of_fmap in Hq as (q0 & -> & Hq0).
  destruct (Hsort (retained to_datetime df)) as [Hperm _].
  rewrite Hperm in Hq0. apply elem_of_retained in Hq0 as (r & Hr & Ht & Hq0).
  exists r. split; [done|]. split; [done|]. cbn [fst snd].
  rewrite Hq0, <- !Hflag. split; reflexivity.
Qed.

Lemma retained_nil_iff to_datetime df :
  retained to_datetime df = [] ↔
  Forall (λ r, to_datetime (fillna (date r)) = None) (rows df).
Proof.
  rewrite Forall_forall. split.
  - intros E r Hr. destruct (to_datetime (fillna (date r))) as [t|] eqn:Ht; [|done].
    assert (H : (t, (fill_row r).2) ∈ retained to_datetime df).
    { apply elem_of_retained. eauto. }
    rewrite E in H. by apply elem_of_nil in H.
  - intros H. destruct (retained to_datetime df) as [|q l] eqn:E; [done|].
    assert (Hq : q ∈ retained to_datetime df) by (rewrite E; left).
    apply elem_of_retained in Hq as (r & Hr & Ht & _).
    rewrite (H r Hr) in Ht. done.
Qed.

(** X9: the call ends in ValueError exactly when no row has a timestamp
    that parses (the empty frame included); the encoder is then handed a
    frame without rows. *)
Theorem value_error_iff_nothing_parses to_datetime sort_values df :
  sort_contract sort_values →
  (preprocess_data to_datetime sort_values df = inl ValueError ↔
   Forall (λ r, to_datetime (fillna (date r)) = None) (rows df)).
Proof.
  intros Hsort. rewrite <- retained_nil_iff.
  destruct (Hsort (retained to_datetime df)) as [Hperm _].
  unfold preprocess_data, cleaned. split.
  - destruct (sort_values (retained to_datetime df)) eqn:E; [|done].
    intros _. by apply Permutation_nil.
  - intros E. rewrite E in Hperm |- *. apply Permutation_nil_r in Hperm.
    by rewrite Hperm.
Qed.

(** X10: no column whose name contains 'msg_type' without containing one of
    the five relevant names is ever returned. In particular the output has
    no msg_type column, no indicator for a missing category ('NULL') and no
    indicator for MEAL_END. *)
Theorem irrelevant_columns_never_returned to_datetime sort_values df out :
  preprocess_data to_datetime sort_values df = inr out →
  (∀ col, col ∈ columns out → contains "msg_type" col = true →
          ∃ m, m ∈ RELEVANT_MSG_TYPES ∧ contains m col = true) ∧
  ("msg_type" ∉ columns out) ∧
  (feature_name "NULL" ∉ columns out) ∧
  (feature_name "MEAL_END" ∉ columns out).
Proof.
  intros Hout.
  destruct (preprocess_data_out _ _ _ _ Hout) as (_ & Hcols & _).
  assert (Hkept : ∀ col, col ∈ columns out → to_drop col = false).
  { intros col. rewrite Hcols. unfold kept_columns.
    rewrite list_elem_of_filter. tauto. }
  split.
  - intros col Hcol Hmsg. apply Hkept in Hcol. unfold to_drop in Hcol.
    rewrite Hmsg in Hcol. cbn [andb] in Hcol.
    apply negb_false_iff, existsb_exists in Hcol as (m & Hm & Hc).
    exists m. split; [by apply list_elem_of_In|done].
  - repeat split; intros Hin; by apply Hkept in Hin.
Qed.

(** X11: when a row whose timestamp parses carries one of the five relevant
    categories, the indicator column of that category is in the output. *)
Theorem relevant_indicator_kept to_datetime sort_values df (r : row) (m : string) :
  sort_contract sort_values →
  r ∈ rows df → is_Some (to_datetime (fillna (date r))) →
  msg_type r = Some m → m ∈ RELEVANT_MSG_TYPES →
  ∃ out, preprocess_data to_datetime sort_values df = inr out ∧
         feature_name m ∈ columns out.
Proof.
  intros Hsort Hr [t Ht] Hm Hrel.
  destruct (Hsort (retained to_datetime df)) as [Hperm _].
  assert (Hq : (t, (fill_row r).2) ∈ sort_values (retained to_datetime df)).
  { rewrite Hperm. apply elem_of_retained. eauto. }
  destruct (preprocess_data_returns to_datetime sort_values df) as [out Hout].
  { intros E. rewrite E in Hq. by apply elem_of_nil in Hq. }
  exists out. split; [done|].
  destruct (preprocess_data_out _ _ _ _ Hout) as (_ & -> & _).
  unfold kept_columns. apply list_elem_of_filter. split.
  - unfold RELEVANT_MSG_TYPES in Hrel.
    repeat (apply elem_of_cons in Hrel as [->|Hrel]; [reflexivity|]).
    by apply elem_of_nil in Hrel.
  - unfold concat_columns. rewrite !elem_of_app. right. right.
    apply list_elem_of_fmap_2, elem_of_categories.
    apply list_elem_of_fmap. exists (binarize_flags (fill_row r).2).
    split; [cbn; by rewrite Hm|].
    apply list_elem_of_fmap. exists (t, binarize_flags (fill_row r).2).
    split; [done|]. unfold cleaned. apply list_elem_of_fmap.
    by exists (t, (fill_row r).2).
Qed.

(** X12: every pass-through column whose name does not contain 'msg_type'
    is returned. *)
Theorem other_columns_kept to_datetime sort_values df out (col : string) :
  preprocess_data to_datetime sort_values df = inr out →
  col ∈ other_columns df → contains "msg_type" col = false →
  col ∈ columns out.
Proof.
  intros Hout Hcol Hmsg.
  destruct (preprocess_data_out _ _ _ _ Hout) as (_ & -> & _).
  unfold kept_columns. apply list_elem_of_filter. split.
  - unfold to_drop. by rewrite Hmsg.
  - unfold concat_columns. rewrite !elem_of_app. right. by left.
Qed.

Lemma length_kept_values (cols : list string) (vals : list cell) :
  length vals = length cols →
  length (kept_values cols vals) = length (kept_columns cols).
Proof.
  unfold kept_values, kept_columns. rewrite length_fmap.
  revert vals. induction cols as [|c cols IH]; intros [|v vals] Hlen;
    try done.
  cbn [zip zip_with]. rewrite !filter_cons. cbn [fst].
  injection Hlen as Hlen. case_decide; cbn [length]; by rewrite IH.
Qed.

(** X13: when every input row has one value per pass-through column, every
    row of the output has exactly one value per returned column. *)
Theorem rows_match_columns to_datetime sort_values df out :
  sort_contract sort_values →
  Forall (λ r, length (others r) = length (other_columns df)) (rows df) →
  preprocess_data to_datetime sort_values df = inr out →
  Forall (λ p, length p.2 = length (columns out)) (out_rows out).
Proof.
  intros Hsort Hshape Hout.
  destruct (preprocess_data_out _ _ _ _ Hout) as (_ & -> & ->).
  apply Forall_fmap, Forall_forall. intros q Hq. cbn [snd].
  apply length_kept_values.
  unfold cleaned in Hq. apply list_elem_of_fmap in Hq as (q0 & -> & Hq0).
  destruct (Hsort (retained to_datetime df)) as [Hperm _].
  rewrite Hperm in Hq0. apply elem_of_retained in Hq0 as (r & Hr & _ & Hq0).
  eapply Forall_forall in Hshape; [|exact Hr].
  unfold concat_values, concat_columns. cbn [snd binarize_flags e_others].
  rewrite Hq0. cbn [fill_row snd e_others app length].
  rewrite !length_app, !length_fmap, Hshape. done.
Qed.

(** X14: when the timestamps that parse are pairwise distinct, the order of
    the input rows does not matter: two frames with the same pass-through
    columns and the same rows in any order give the same result. *)
Theorem input_order_irrelevant to_datetime sort_values df df' :
  sort_contract sort_values →
  other_columns df = other_columns df' → rows df ≡ₚ rows df' →
  NoDup (omap (λ r, to_datetime (fillna (date r))) (rows df)) →
  preprocess_data to_datetime sort_values df =
  preprocess_data to_datetime sort_values df'.
Proof.
  intros Hsort Hcols Hrows Hnd. rewrite <- retained_dates in Hnd.
  assert (Hret : retained to_datetime df ≡ₚ retained to_datetime df').
  { unfold retained, dropna. by rewrite Hrows. }
  destruct (Hsort (retained to_datetime df)) as [Hp Hs].
  destruct (Hsort (retained to_datetime df')) as [Hp' Hs'].
  assert (Heq : sort_values (retained to_datetime df) =
                sort_values (retained to_datetime df')).
  { apply (Sorted_unique_strong (λ a b, a.1 ≤ b.1)); [|done|done|].
    - intros x y Hx Hy Hxy Hyx. rewrite Hp in Hx. rewrite Hp', <- Hret in Hy.
      apply (unique_date_rows _ _ _ Hnd Hx Hy). lia.
    - by rewrite Hp, Hp'. }
  unfold preprocess_data, cleaned. by rewrite Heq, Hcols.
Qed.

(** *** The theorems at concrete frames *)

Lemma flags_coerced_witness :
  sort_contract stable_sort ∧
  ∃ out,
    preprocess_data example_to_datetime stable_sort glucose_frame = inr out ∧
    ∃ i j : nat,
      columns out !! i = Some "affects_fob" ∧
      columns out !! j = Some "affects_iob" ∧
      ∀ p, p ∈ out_rows out →
        ∃ r,
          r ∈ rows glucose_frame ∧
          example_to_datetime (fillna (date r)) = Some p.1 ∧
          p.2 !! i =
            Some (Num (match affects_fob r with
                       | Some x => if decide (x = 0%Qc) then 0%Qc else 1%Qc
                       | None => 0%Qc
                       end)) ∧
          p.2 !! j =
            Some (Num (match affects_iob r with
                       | Some x => if decide (x = 0%Qc) then 0%Qc else 1%Qc
                       | None => 0%Qc
                       end)).
Proof.
  split; [exact stable_sort_contract|].
  eexists. split; [vm_compute; reflexivity|].
  apply (flags_coerced example_to_datetime stable_sort glucose_frame);
    [exact stable_sort_contract|vm_compute; reflexivity].
Defined.

Lemma value_error_iff_nothing_parses_witness :
  sort_contract stable_sort ∧
  (preprocess_data example_to_datetime stable_sort unparseable_frame = inl ValueError ↔
   Forall (λ r, example_to_datetime (fillna (date r)) = None) (rows unparseable_frame)).
Proof.
  split; [exact stable_sort_contract|].
  exact (value_error_iff_nothing_parses example_to_datetime stable_sort
           unparseable_frame stable_sort_contract).
Defined.

Lemma irrelevant_columns_never_returned_witness :
  ∃ out,
    preprocess_data example_to_datetime stable_sort cancelled_frame = inr out ∧
    (∀ col, col ∈ columns out → contains "msg_type" col = true →
            ∃ m, m ∈ RELEVANT_MSG_TYPES ∧ contains m col = true) ∧
    ("msg_type" ∉ columns out) ∧
    (feature_name "NULL" ∉ columns out) ∧
    (feature_name "MEAL_END" ∉ columns out).
Proof.
  eexists. split; [vm_compute; reflexivity|].
  apply (irrelevant_columns_never_returned example_to_datetime stable_sort
           cancelled_frame).
  vm_compute; reflexivity.
Defined.

Lemma relevant_indicator_kept_witness :
  sort_contract stable_sort ∧
  ∃ out, preprocess_data example_to_datetime stable_sort mixed_frame = inr out ∧
         feature_name "DOSE_INSULIN" ∈ columns out.
Proof.
  split; [exact stable_sort_contract|].
  apply (relevant_indicator_kept example_to_datetime stable_sort mixed_frame
           (Row (Str "2024-01-01 09:00:00+0000") (Some "DOSE_INSULIN") None None [])
           "DOSE_INSULIN").
  - exact stable_sort_contract.
  - apply list_elem_of_here.
  - eexists. reflexivity.
  - reflexivity.
  - apply (bool_decide_unpack _). vm_compute. exact I.
Defined.

Lemma other_columns_kept_witness :
  ∃ out,
    preprocess_data example_to_datetime stable_sort glucose_frame = inr out ∧
    "bgl" ∈ other_columns glucose_frame ∧ contains "msg_type" "bgl" = false ∧
    "bgl" ∈ columns out.
Proof.
  eexists. split; [vm_compute; reflexivity|].
  split; [apply list_elem_of_here|]. split; [reflexivity|].
  apply (other_columns_kept example_to_datetime stable_sort glucose_frame);
    [vm_compute; reflexivity|apply list_elem_of_here|reflexivity].
Defined.

Lemma rows_match_columns_witness :
  sort_contract stable_sort ∧
  Forall (λ r, length (others r) = length (other_columns glucose_frame))
         (rows glucose_frame) ∧
  ∃ out,
    preprocess_data example_to_datetime stable_sort glucose_frame = inr out ∧
    Forall (λ p, length p.2 = length (columns out)) (out_rows out).
Proof.
  assert (H : Forall (λ r, length (others r) = length (other_columns glucose_frame))
                     (rows glucose_frame)) by (repeat constructor).
  split; [exact stable_sort_contract|]. split; [exact H|].
  eexists. split; [vm_compute; reflexivity|].
  apply (rows_match_columns example_to_datetime stable_sort glucose_frame);
    [exact stable_sort_contract|exact H|vm_compute; reflexivity].
Defined.

Lemma input_order_irrelevant_witness :
  sort_contract numpy_quicksort ∧
  rows mixed_frame ≡ₚ rows mixed_frame_reordered ∧
  NoDup (omap (λ r, example_to_datetime (fillna (date r))) (rows mixed_frame)) ∧
  preprocess_data example_to_datetime numpy_quicksort mixed_frame =
  preprocess_data example_to_datetime numpy_quicksort mixed_frame_reordered.
Proof.
  assert (Hp : rows mixed_frame ≡ₚ rows mixed_frame_reordered)
    by apply Permutation_swap.
  assert (Hn : NoDup (omap (λ r, example_to_datetime (fillna (date r)))
                           (rows mixed_frame))).
  { apply (bool_decide_unpack _). vm_compute. exact I. }
  split; [exact numpy_quicksort_contract|]. split; [exact Hp|]. split; [exact Hn|].
  exact (input_order_irrelevant example_to_datetime numpy_quicksort mixed_frame
           mixed_frame_reordered numpy_quicksort_contract eq_refl Hp Hn).
Defined.

End NormalizerMore.
